(** * Plug-in architecture: event bus and plugin registry

    A shallow embedding of the [EventEmitter] class (events.ts), of the
    plugin registry and activation code of [CoreConstructor] (Core.ts) and
    of the Refresh plugin (plugins/refresh.ts).

    Modelling conventions.
    - The objects [events], [eventTypes], [pluginsMap], [options] and
      [plugins] are JavaScript objects used as string-keyed maps.  Their own
      properties are a finite map.  A property that is not an own one is
      looked up in the prototype: [Object_prototype] lists what
      [Object.prototype] holds, and the options object inherits [merge] as
      well.  An assignment under the key "__proto__" does not create a
      property: it is ignored for a primitive value and replaces the
      prototype for an object.
    - Operations end in one of three ways: they return, they throw, or they
      leave what is modelled ([Unmodelled]): this happens when the
      prototype of [events] or of the options object is replaced, after
      which property lookups depend on an object this file does not
      describe.
    - A function is known by its identity, because the code compares
      functions with [===].  A caller-supplied function is [User id fn],
      where [fn] is the identity of the function its property [fn] holds, if
      any; the closure [magic] built by [once] is [Magic uid type fn
      context], where [uid] is a fresh closure identity taken from a
      counter.
    - What a caller-supplied function does when it is applied is given by an
      environment [body]: a transformer of the bus that returns a value or
      throws.  Such a body may call [on], [once], [off], [trigger],
      [registerType] or [destroy] on the bus.  Functions that do not
      terminate are outside the model.
    - An array is a list.  [trigger] copies the array of subscriptions
      before its loop, so the loop runs over the list read at that point;
      the in-place [push] and [splice] of [on] and [off] act on the stored
      array only.
    - [warn] (from ./debug) is a console diagnostic; the bus carries the
      list of diagnostics emitted so far. *)

From Stdlib Require Import ZArith List Bool Lia Sorted Permutation.
From stdpp Require Import base option list gmap strings.

(** ** JavaScript values *)

Inductive Value : Type :=
  | VUndefined
  | VNull
  | VBool (b : bool)
  | VNum (n : Z)
  | VStr (s : string)
  | VObj (ref : nat).

(** [ret === true] *)
Definition is_true (v : Value) : bool :=
  match v with
  | VBool true => true
  | _ => false
  end.

(** Truthiness of a value, as tested by [if (v)] and [!v]. *)
Definition truthy (v : Value) : bool :=
  match v with
  | VUndefined | VNull => false
  | VBool b => b
  | VNum n => negb (n =? 0)%Z
  | VStr s => negb (String.eqb s EmptyString)
  | VObj _ => true
  end.

(** Truthiness of an optional string argument ([type?: string]). *)
Definition truthy_str (o : option string) : bool :=
  match o with
  | None => false
  | Some s => negb (String.eqb s EmptyString)
  end.

(** What is thrown: a [TypeError] of the engine, or a value thrown by
    caller-supplied code. *)
Inductive Error : Type :=
  | TypeError
  | Raised (v : Value).

(** How an operation ends. *)
Inductive Ending (A : Type) : Type :=
  | Returns (a : A)
  | Throws (err : Error)
  | Unmodelled.

Arguments Returns {A} a.
Arguments Throws {A} err.
Arguments Unmodelled {A}.

(** ** Prototypes *)

(** What a property inherited from [Object.prototype] holds: a function,
    with its [length], or, for "__proto__", the accessor that yields the
    prototype object. *)
Inductive Inherited : Type :=
  | IFunction (length : nat)
  | IProto.

Definition Object_prototype_table : list (string * Inherited) :=
  [("constructor"%string, IFunction 1);
   ("__defineGetter__"%string, IFunction 2);
   ("__defineSetter__"%string, IFunction 2);
   ("hasOwnProperty"%string, IFunction 1);
   ("__lookupGetter__"%string, IFunction 1);
   ("__lookupSetter__"%string, IFunction 1);
   ("isPrototypeOf"%string, IFunction 1);
   ("propertyIsEnumerable"%string, IFunction 1);
   ("toString"%string, IFunction 0);
   ("valueOf"%string, IFunction 0);
   ("toLocaleString"%string, IFunction 0);
   ("__proto__"%string, IProto)].

Fixpoint table_get {A} (key : string) (table : list (string * A)) : option A :=
  match table with
  | [] => None
  | (k, v) :: rest => if String.eqb k key then Some v else table_get key rest
  end.

(** [Object.prototype[key]] *)
Definition Object_prototype (key : string) : option Inherited :=
  table_get key Object_prototype_table.

(** [obj[key] = v] for a primitive [v] on an object whose own properties
    are [own]: under "__proto__" the prototype setter ignores a primitive,
    unless the object has an own property of that name. *)
Definition assign_primitive {V} (key : string) (v : V) (own : gmap string V)
  : gmap string V :=
  if String.eqb key "__proto__" && negb (bool_decide (is_Some (own !! key)))
  then own
  else <[key := v]> own.

(** ** Functions and subscriptions *)

(** The receiver a function is applied to: the emitter itself (the default
    [context = this]) or some other object. *)
Inductive Ctx : Type :=
  | CtxThis
  | CtxObj (ref : nat).

(** The identity of a function object. *)
Inductive FnId : Type :=
  | UserFn (id : nat)
  | Closure (uid : nat).

Definition fnid_same (a b : FnId) : bool :=
  match a, b with
  | UserFn x, UserFn y => Nat.eqb x y
  | Closure x, Closure y => Nat.eqb x y
  | _, _ => false
  end.

Inductive Fn : Type :=
  | User (id : nat) (fn : option FnId)
  | Magic (uid : nat) (type : string) (fn : Fn) (context : Ctx).

Definition fn_id (f : Fn) : FnId :=
  match f with
  | User id _ => UserFn id
  | Magic uid _ _ _ => Closure uid
  end.

(** [f === g] on function references. *)
Definition fn_same (f g : Fn) : bool := fnid_same (fn_id f) (fn_id g).

(** [f.fn], when it holds a function: [once] sets it on the closure it
    builds, a caller may have set it on a function of its own. *)
Definition fn_fn (f : Fn) : option FnId :=
  match f with
  | User _ fn => fn
  | Magic _ _ fn _ => Some (fn_id fn)
  end.

(** A stored pair [[fn, context]]. *)
Abbreviation Sub := (Fn * Ctx)%type.

(** ** The emitter *)

(** The message of [hasType]: the offending type and the declared ones
    ([Object.keys(types)]). *)
Inductive Diagnostic : Type :=
  | UnknownEventType (type : string) (known : gset string).

(** The own properties of [events] and of [eventTypes], the number of
    closures [once] has built so far (the identity of the next one) and the
    diagnostics reported so far. *)
Record EventEmitter : Type := mkEmitter {
  events : gmap string (list Sub);
  eventTypes : gmap string string;
  closures : nat;
  console : list Diagnostic
}.

Definition set_events (ev : gmap string (list Sub)) (e : EventEmitter) : EventEmitter :=
  mkEmitter ev (eventTypes e) (closures e) (console e).

Definition set_eventTypes (ts : gmap string string) (e : EventEmitter) : EventEmitter :=
  mkEmitter (events e) ts (closures e) (console e).

(** Modelled from the spec: [warn] is imported from ./debug, which is not
    among the sources.  It reports a non-fatal diagnostic and returns; the
    report is kept as one more entry of [console]. *)
Definition warn (d : Diagnostic) (e : EventEmitter) : EventEmitter :=
  mkEmitter (events e) (eventTypes e) (closures e) (console e ++ [d]).

(** [const isType = types[type] === type].  An inherited property holds a
    function or an object, never the string [type]. *)
Definition isType (type : string) (e : EventEmitter) : bool :=
  match eventTypes e !! type with
  | Some t => String.eqb t type
  | None => false
  end.

Definition hasType (type : string) (e : EventEmitter) : EventEmitter :=
  if isType type e then e
  else warn (UnknownEventType type (dom (eventTypes e))) e.

(** [names.forEach(type => { this.eventTypes[type] = type })] *)
Definition registerType (names : list string) (e : EventEmitter) : EventEmitter :=
  fold_left (fun e' type => set_eventTypes (assign_primitive type type (eventTypes e')) e')
            names e.

(** [new EventEmitter(names)] *)
Definition new_EventEmitter (names : list string) : EventEmitter :=
  registerType names (mkEmitter ∅ ∅ 0 []).

Definition destroy (e : EventEmitter) : EventEmitter :=
  set_eventTypes ∅ (set_events ∅ e).

(** What [this.events[type]] reads: an own array, a property inherited
    from [Object.prototype], or [undefined]. *)
Inductive Slot : Type :=
  | SArray (evs : list Sub)
  | SInherited (i : Inherited)
  | SUndefined.

Definition events_at (type : string) (e : EventEmitter) : Slot :=
  match events e !! type with
  | Some evs => SArray evs
  | None =>
      match Object_prototype type with
      | Some i => SInherited i
      | None => SUndefined
      end
  end.

(** [on(type, fn, context = this)].  An inherited property is truthy, so
    no array is created for it, and it has no method [push]: the call
    throws.  The method returns [this]. *)
Definition on (type : string) (fn : Fn) (context : Ctx) (e : EventEmitter)
  : EventEmitter * Ending unit :=
  let e1 := hasType type e in
  match events_at type e1 with
  | SUndefined => (set_events (<[type := [(fn, context)]]> (events e1)) e1, Returns tt)
  | SArray evs => (set_events (<[type := evs ++ [(fn, context)]]> (events e1)) e1, Returns tt)
  | SInherited _ => (e1, Throws TypeError)
  end.

(** What [off] hands back: the emitter (for chaining) or nothing. *)
Inductive OffResult : Type :=
  | ReturnsThis
  | ReturnsUndefined.

(** The test of the removal loop:
    [events[count][0] === fn || (events[count][0] && events[count][0].fn === fn)] *)
Definition off_matches (fn : Fn) (s : Sub) : bool :=
  fn_same (fst s) fn ||
  match fn_fn (fst s) with
  | Some g => fnid_same g (fn_id fn)
  | None => false
  end.

(** [while (count--) { if (...) events.splice(count, 1) }].  The index is
    always in range, see [off_scan_in_range]. *)
Fixpoint off_scan (fn : Fn) (count : nat) (evs : list Sub) : list Sub :=
  match count with
  | O => evs
  | S c =>
      match evs !! c with
      | Some s => off_scan fn c (if off_matches fn s then delete c evs else evs)
      | None => off_scan fn c evs
      end
  end.

(** [off(type?, fn?)].  With a type and no handler, [this.events[type] = []]
    stores an array, but under "__proto__" it replaces the prototype of
    [events].  With a type and a handler, what [this.events[type]] reads
    decides: nothing to do for [undefined]; the loop for an array; for an
    inherited function the loop starts at the function's [length] and
    throws at [events[count][0]] unless that length is 0; for the prototype
    object [length] is [undefined] and the loop does not run. *)
Definition off (type : option string) (fn : option Fn) (e : EventEmitter)
  : EventEmitter * Ending OffResult :=
  if negb (truthy_str type) && negb (bool_decide (is_Some fn)) then
    (set_events ∅ e, Returns ReturnsThis)
  else
    match type with
    | Some t =>
        if truthy_str type then
          let e1 := hasType t e in
          match fn with
          | None =>
              if String.eqb t "__proto__" && negb (bool_decide (is_Some (events e1 !! t)))
              then (e1, Unmodelled)
              else (set_events (<[t := []]> (events e1)) e1, Returns ReturnsThis)
          | Some f =>
              match events_at t e1 with
              | SUndefined => (e1, Returns ReturnsThis)
              | SArray evs =>
                  (set_events (<[t := off_scan f (length evs) evs]> (events e1)) e1,
                   Returns ReturnsThis)
              | SInherited (IFunction O) => (e1, Returns ReturnsThis)
              | SInherited (IFunction (S _)) => (e1, Throws TypeError)
              | SInherited IProto => (e1, Returns ReturnsThis)
              end
          end
        else (e, Returns ReturnsUndefined)
    | None => (e, Returns ReturnsUndefined)
    end.

(** [once(type, fn, context = this)]: builds the closure [magic], sets
    [magic.fn = fn] and subscribes it with the default context. *)
Definition once (type : string) (fn : Fn) (context : Ctx) (e : EventEmitter)
  : EventEmitter * Ending unit :=
  let e1 := hasType type e in
  let magic := Magic (closures e1) type fn context in
  let e2 := mkEmitter (events e1) (eventTypes e1) (S (closures e1)) (console e1) in
  on type magic CtxThis e2.

(** One application [fn.apply(context, args)] performed by the emitter's own
    code, with the way it ended. *)
Record Call : Type := mkCall {
  call_fn : Fn;
  call_ctx : Ctx;
  call_args : list Value;
  call_ret : Ending Value
}.

(** One step of the dispatch loop, recorded: the subscription applied, the
    way the application ended and the applications its adapter made. *)
Record Fired : Type := mkFired {
  fired_sub : Sub;
  fired_args : list Value;
  fired_ret : Ending Value;
  fired_inner : list Call
}.

(** What the adapter of [once] makes of the result of the original
    function: [if (ret === true) return ret]. *)
Definition only_true (r : Ending Value) : Ending Value :=
  match r with
  | Returns v => Returns (if is_true v then v else VUndefined)
  | Throws err => Throws err
  | Unmodelled => Unmodelled
  end.

Section Dispatch.

(** The behaviour of caller-supplied functions. *)
Variable body : nat -> Ctx -> list Value -> EventEmitter -> EventEmitter * Ending Value.

(** [f.apply(context, args)].  The third component lists the applications
    made by the adapter closures on the way (line [fn.apply(context, args)]
    of [magic]), outermost first.  The closure is an arrow function: it
    ignores its receiver, calls [this.off(type, magic)] on the emitter and
    applies [fn] to the context given to [once]. *)
Fixpoint apply (f : Fn) (context : Ctx) (args : list Value) (e : EventEmitter)
  : EventEmitter * Ending Value * list Call :=
  match f with
  | User id _ =>
      let '(e', r) := body id context args e in (e', r, [])
  | Magic _ type fn ctx =>
      match off (Some type) (Some f) e with
      | (e1, Returns _) =>
          let '(e2, r, inner) := apply fn ctx args e1 in
          (e2, only_true r, mkCall fn ctx args r :: inner)
      | (e1, Throws err) => (e1, Throws err, [])
      | (e1, Unmodelled) => (e1, Unmodelled, [])
      end
  end.

(** The loop [for (let i = 0; i < len; i++)] over [eventsCopy], whose
    length is [len].  A stored function is never falsy, so the test
    [if (fn)] always passes.  An application that throws ends the loop. *)
Fixpoint dispatch (eventsCopy : list Sub) (args : list Value) (e : EventEmitter)
  : EventEmitter * Ending Value * list Fired :=
  match eventsCopy with
  | [] => (e, Returns VUndefined, [])
  | (fn, context) :: rest =>
      let '(e1, r, inner) := apply fn context args e in
      let step := mkFired (fn, context) args r inner in
      match r with
      | Returns ret =>
          if is_true ret then (e1, Returns ret, [step])
          else
            let '(e2, r', steps) := dispatch rest args e1 in
            (e2, r', step :: steps)
      | Throws err => (e1, Throws err, [step])
      | Unmodelled => (e1, Unmodelled, [step])
      end
  end.

(** [trigger(type, ...args)].  An inherited property is truthy and is not
    iterable: [[...events]] throws. *)
Definition trigger (type : string) (args : list Value) (e : EventEmitter)
  : EventEmitter * Ending Value * list Fired :=
  let e1 := hasType type e in
  match events_at type e1 with
  | SUndefined => (e1, Returns VUndefined, [])
  | SArray evs => dispatch evs args e1
  | SInherited _ => (e1, Throws TypeError, [])
  end.

End Dispatch.

(** [on(type, h_1, c_1); ...; on(type, h_n, c_n)]: a call that throws ends
    the sequence. *)
Fixpoint subscribe_all (type : string) (hs : list Sub) (e : EventEmitter)
  : EventEmitter * Ending unit :=
  match hs with
  | [] => (e, Returns tt)
  | s :: rest =>
      match on type (fst s) (snd s) e with
      | (e1, Returns _) => subscribe_all type rest e1
      | (e1, Throws err) => (e1, Throws err)
      | (e1, Unmodelled) => (e1, Unmodelled)
      end
  end.

(** The subscriptions stored for [type]; an absent entry holds none. *)
Definition subscriptions (type : string) (e : EventEmitter) : list Sub :=
  default [] (events e !! type).

(** The bus can hold subscriptions for [type]: it stores an array for it,
    or the name is not one it inherits. *)
Definition accepts (type : string) (e : EventEmitter) : bool :=
  match events_at type e with
  | SInherited _ => false
  | _ => true
  end.

(** Every application made while a pass ran: each step's own application
    followed by those of its adapter. *)
Definition applied (s : Fired) : list Call :=
  mkCall (fst (fired_sub s)) (snd (fired_sub s)) (fired_args s) (fired_ret s)
  :: fired_inner s.

Definition calls (steps : list Fired) : list Call := flat_map applied steps.

(** How many of the applications were applications of [f]. *)
Definition invocations (f : Fn) (cs : list Call) : nat :=
  length (filter (fun g => fn_same g f = true) (map call_fn cs)).

(** A subscription whose stored function is a caller-supplied one. *)
Definition is_user (s : Sub) : bool :=
  match fst s with
  | User _ _ => true
  | Magic _ _ _ _ => false
  end.

(** A subscription made with a caller-supplied function [h]: by [on], which
    stores [h], or by [once], which stores an adapter around [h]. *)
Definition plain (s : Sub) : bool :=
  match fst s with
  | User _ _ => true
  | Magic _ _ (User _ _) _ => true
  | Magic _ _ (Magic _ _ _ _) _ => false
  end.

(** The functions applied when [f] is: [f] itself, then the function an
    adapter hands on to, and so on. *)
Fixpoint chain (f : Fn) : list Fn :=
  f :: match f with
       | User _ _ => []
       | Magic _ _ g _ => chain g
       end.

(** A subscription whose stored function is a function of the caller
    without a property [fn]. *)
Definition bare (s : Sub) : bool :=
  match fst s with
  | User _ None => true
  | _ => false
  end.

(** The removal loop with the array access checked: [None] stands for an
    access past the end of the array. *)
Fixpoint off_scan_checked (fn : Fn) (count : nat) (evs : list Sub) : option (list Sub) :=
  match count with
  | O => Some evs
  | S c =>
      match evs !! c with
      | Some s => off_scan_checked fn c (if off_matches fn s then delete c evs else evs)
      | None => None
      end
  end.

(** The subscriptions [off(type, fn)] keeps. *)
Definition kept (fn : Fn) (evs : list Sub) : list Sub :=
  filter (fun s => off_matches fn s = false) evs.

(** ** A pass, as the specification words it *)

(** What invoking one subscription of a pass amounts to, for the caller's
    functions.  A handler stored by [on] is applied to its stored context
    and the arguments.  The adapter stored by [once(type, h, ctx)] first
    unsubscribes itself, then applies [h] to [ctx] and the arguments, and
    hands on a result of [true]. *)
Definition spec_invoke
    (body : nat -> Ctx -> list Value -> EventEmitter -> EventEmitter * Ending Value)
    (args : list Value) (s : Sub) (e : EventEmitter) : EventEmitter * Ending Value :=
  match fst s with
  | User id _ => body id (snd s) args e
  | Magic _ type (User id _) ctx =>
      match off (Some type) (Some (fst s)) e with
      | (e1, Returns _) => let '(e2, r) := body id ctx args e1 in (e2, only_true r)
      | (e1, Throws err) => (e1, Throws err)
      | (e1, Unmodelled) => (e1, Unmodelled)
      end
  | Magic _ _ (Magic _ _ _ _) _ => (e, Unmodelled)
  end.

(** The subscriptions of [snapshot] are invoked in order, each on the bus
    the previous one left; a result of exactly [true] ends the pass, which
    then returns [true]; after the last subscription the pass returns no
    value; a subscription that throws ends the pass with its error. *)
Fixpoint spec_pass
    (body : nat -> Ctx -> list Value -> EventEmitter -> EventEmitter * Ending Value)
    (args : list Value) (snapshot : list Sub) (e : EventEmitter)
  : EventEmitter * Ending Value :=
  match snapshot with
  | [] => (e, Returns VUndefined)
  | s :: rest =>
      match spec_invoke body args s e with
      | (e1, Returns v) =>
          if is_true v then (e1, Returns (VBool true)) else spec_pass body args rest e1
      | (e1, Throws err) => (e1, Throws err)
      | (e1, Unmodelled) => (e1, Unmodelled)
      end
  end.

(** ** Caller-supplied functions used in examples *)

(** A function that does nothing and returns no value. *)
Definition idle : nat -> Ctx -> list Value -> EventEmitter -> EventEmitter * Ending Value :=
  fun _ _ _ e => (e, Returns VUndefined).

(** A function that returns the number 42. *)
Definition answer : nat -> Ctx -> list Value -> EventEmitter -> EventEmitter * Ending Value :=
  fun _ _ _ e => (e, Returns (VNum 42)).

(** Function 0 calls [this.off()]; the other functions return the number
    of the function. *)
Definition clearing : nat -> Ctx -> list Value -> EventEmitter -> EventEmitter * Ending Value :=
  fun id _ _ e =>
    match id with
    | 0 => (fst (off None None e), Returns VUndefined)
    | _ => (e, Returns (VNum (Z.of_nat id)))
    end.

(** Function 0 unsubscribes function 1 from "tap" and subscribes function 2;
    the other functions return the number of the function. *)
Definition meddler : nat -> Ctx -> list Value -> EventEmitter -> EventEmitter * Ending Value :=
  fun id _ _ e =>
    match id with
    | 0 => (fst (on "tap" (User 2 None) CtxThis
                   (fst (off (Some "tap"%string) (Some (User 1 None)) e))),
            Returns VUndefined)
    | _ => (e, Returns (VNum (Z.of_nat id)))
    end.

(** * The plugin registry and the host *)

(** Modelled from the spec: the enumeration [ApplyOrder] is used by Core.ts
    but declared elsewhere.  It has the two members [Pre] and [Post]; a
    plugin without the tag has the default order.  Both members are truthy
    values, distinct as keys of [applyOrderMap]. *)
Inductive ApplyOrder : Type :=
  | Pre
  | Post.

(** A plugin class: its identity as a function object and its static
    properties. *)
Record PluginCtor : Type := mkCtor {
  ctor_ref : nat;
  pluginName : string;
  ctor_applyOrder : option ApplyOrder
}.

Record PluginItem : Type := mkItem {
  name : string;
  applyOrder : option ApplyOrder;
  ctor : PluginCtor
}.

(** [c === d] on plugin classes. *)
Definition ctor_same (c d : PluginCtor) : bool := Nat.eqb (ctor_ref c) (ctor_ref d).

(** The static fields [CoreConstructor.plugins] and
    [CoreConstructor.pluginsMap] (its own properties), shared by all
    hosts. *)
Record Registry : Type := mkRegistry {
  reg_plugins : list PluginItem;
  reg_pluginsMap : gmap string bool
}.

(** What [use] returns: the class [CoreConstructor] itself, on which [use]
    can be called again. *)
Inductive Handle : Type :=
  | CoreConstructorClass.

Definition use (c : PluginCtor) (R : Registry) : Registry * Handle :=
  let name := pluginName c in
  let installed := existsb (fun plugin => ctor_same c (ctor plugin)) (reg_plugins R) in
  if installed then (R, CoreConstructorClass)
  else
    (mkRegistry (reg_plugins R ++ [mkItem name (ctor_applyOrder c) c])
                (assign_primitive name true (reg_pluginsMap R)),
     CoreConstructorClass).

(** [a.applyOrder ? applyOrderMap[a.applyOrder] : 0] *)
Definition order_key (o : option ApplyOrder) : Z :=
  match o with
  | Some Pre => (-1)%Z
  | Some Post => 1%Z
  | None => 0%Z
  end.

(** The comparison function handed to [sort]. *)
Definition compare_items (a b : PluginItem) : Z :=
  (order_key (applyOrder a) - order_key (applyOrder b))%Z.

(** [Array.prototype.sort(comparefn)] is a stable sort (ECMAScript 2019).
    For a consistent comparison function its result does not depend on the
    algorithm; it is computed here by insertion, an element going in front
    of the first one it does not exceed. *)
Fixpoint sort_insert {A} (comparefn : A -> A -> Z) (x : A) (l : list A) : list A :=
  match l with
  | [] => [x]
  | y :: l' =>
      if (comparefn x y <=? 0)%Z then x :: y :: l'
      else y :: sort_insert comparefn x l'
  end.

Fixpoint sort {A} (comparefn : A -> A -> Z) (l : list A) : list A :=
  match l with
  | [] => []
  | x :: l' => sort_insert comparefn x (sort comparefn l')
  end.

(** The items of a list that carry a given apply-order tag, in the order of
    the list. *)
Definition with_order (o : option ApplyOrder) (l : list PluginItem) : list PluginItem :=
  List.filter (fun it => (order_key (applyOrder it) =? order_key o)%Z) l.

(** The order the sort establishes: the key of [a] is at most that of [b]. *)
Definition order_le (a b : PluginItem) : Prop :=
  (order_key (applyOrder a) <= order_key (applyOrder b))%Z.

(** [new OptionsConstructor()]: the own properties, the built-in defaults. *)
Definition new_OptionsConstructor : gmap string Value :=
  <["startX"%string := VNum 0]> (<["startY"%string := VNum 0]> ∅).

(** An object or [null]: what the setter of "__proto__" accepts. *)
Definition object_or_null (v : Value) : bool :=
  match v with
  | VObj _ | VNull => true
  | _ => false
  end.

(** [merge(options)]: [for (let key in options) this[key] = options[key]],
    where [options] holds the enumerable properties of the caller's
    object.  Every key overwrites the own property of that name, except
    "__proto__" on an object without such an own property: a primitive is
    ignored there, an object or [null] replaces the prototype of the
    options object, which is not modelled ([None]). *)
Definition merge (options : option (gmap string Value)) (this : gmap string Value)
  : option (gmap string Value) :=
  match options with
  | None => Some this
  | Some o =>
      if bool_decide (is_Some (this !! "__proto__"%string)) then Some (o ∪ this)
      else
        match o !! "__proto__"%string with
        | Some v =>
            if object_or_null v then None
            else Some (delete "__proto__"%string o ∪ this)
        | None => Some (o ∪ this)
        end
  end.

(** Whether the options object inherits a property [key]: the method
    [merge] and [constructor] of its class, and what [Object.prototype]
    holds.  All of them are functions or objects, hence truthy. *)
Definition inherited_by_options (key : string) : bool :=
  String.eqb key "merge" || bool_decide (is_Some (Object_prototype key)).

(** [options[key]] as a condition: the own property when there is one, an
    inherited property otherwise. *)
Definition option_truthy (options : gmap string Value) (key : string) : bool :=
  match options !! key with
  | Some v => truthy v
  | None => inherited_by_options key
  end.

(** A host: the emitter it extends and its own fields.  [plugins] holds the
    own properties of the plugin map and [plugins_proto] the object that
    replaced its prototype, if any. *)
Record CoreConstructor : Type := mkCore {
  emitter : EventEmitter;
  options : gmap string Value;
  plugins : gmap string Value;
  plugins_proto : option Value;
  hooks : EventEmitter
}.

(** How the evaluation of [new ctor(this)] ends: with an instance, with
    an error, or outside what is modelled. *)
Inductive Outcome : Type :=
  | Returned (instance : Value)
  | Thrown (error : Error)
  | Lost.

(** How [applyPlugins], and with it the host's constructor, ends.
    [Escaped] stands for a construction that is not modelled, see
    [merge]. *)
Inductive Completion : Type :=
  | Normal
  | Abrupt (error : Error)
  | Escaped.

(** [typeof ctor === 'function']: a plugin class is a function. *)
Definition is_function (c : PluginCtor) : bool := true.

(** Whether the host's options enable an item:
    [options[item.name] && typeof ctor === 'function']. *)
Definition enabled (opts : gmap string Value) (item : PluginItem) : bool :=
  option_truthy opts (name item) && is_function (ctor item).

(** [this.plugins[name] = instance]: under "__proto__" the instance becomes
    the prototype of the plugin map (a primitive is ignored). *)
Definition store_plugin (name : string) (instance : Value) (this : CoreConstructor)
  : CoreConstructor :=
  if String.eqb name "__proto__" && negb (bool_decide (is_Some (plugins this !! name)))
  then
    if object_or_null instance
    then mkCore (emitter this) (options this) (plugins this) (Some instance) (hooks this)
    else this
  else mkCore (emitter this) (options this) (<[name := instance]> (plugins this))
              (plugins_proto this) (hooks this).

(** The host with its two buses replaced. *)
Definition with_buses (buses : EventEmitter * EventEmitter) (this : CoreConstructor)
  : CoreConstructor :=
  mkCore (fst buses) (options this) (plugins this) (plugins_proto this) (snd buses).

Section Host.

(** The behaviour of plugin constructors.  A plugin attaches itself to the
    host through the host's two buses (the emitter the host extends and
    [hooks]) and may read the host's options. *)
Variable construct :
  PluginCtor -> gmap string Value -> EventEmitter * EventEmitter ->
  EventEmitter * EventEmitter * Outcome.

(** The body of the [forEach] callback and the iteration itself.  The
    third component lists the items whose constructor was called, in
    order. *)
Fixpoint forEach_apply (items : list PluginItem) (this : CoreConstructor)
  : CoreConstructor * Completion * list PluginItem :=
  match items with
  | [] => (this, Normal, [])
  | item :: rest =>
      let ctor := ctor item in
      if option_truthy (options this) (name item) && is_function ctor then
        let '(buses, out) := construct ctor (options this) (emitter this, hooks this) in
        let this1 := with_buses buses this in
        match out with
        | Thrown err => (this1, Abrupt err, [item])
        | Lost => (this1, Escaped, [item])
        | Returned instance =>
            let '(this3, c, log) := forEach_apply rest (store_plugin (name item) instance this1) in
            (this3, c, item :: log)
        end
      else forEach_apply rest this
  end.

(** [applyPlugins()]: sorts the shared list in place, then visits it. *)
Definition applyPlugins (R : Registry) (this : CoreConstructor)
  : Registry * (CoreConstructor * Completion * list PluginItem) :=
  let sorted := sort compare_items (reg_plugins R) in
  (mkRegistry sorted (reg_pluginsMap R), forEach_apply sorted this).

(** The host before [init()], with the given options. *)
Definition new_host (opts : gmap string Value) : CoreConstructor :=
  mkCore (new_EventEmitter []) opts ∅ None (new_EventEmitter []).

(** [new CoreConstructor(options)].  When [merge] has replaced the
    prototype of the options object, the shared list is sorted as usual,
    but which items [options[item.name]] enables depends on the object that
    became the prototype: the visit is not modelled. *)
Definition new_CoreConstructor (opts : option (gmap string Value)) (R : Registry)
  : Registry * (CoreConstructor * Completion * list PluginItem) :=
  match merge opts new_OptionsConstructor with
  | Some o => applyPlugins R (new_host o)
  | None =>
      (mkRegistry (sort compare_items (reg_plugins R)) (reg_pluginsMap R),
       (new_host new_OptionsConstructor, Escaped, []))
  end.

(** The activation as the specification words it: the constructors of the
    given descriptors are called in order, each with the host as the
    previous one left it; each instance is stored under the name of its
    descriptor; a constructor that throws ends the activation. *)
Fixpoint spec_activate (items : list PluginItem) (this : CoreConstructor)
  : CoreConstructor * Completion :=
  match items with
  | [] => (this, Normal)
  | item :: rest =>
      match construct (ctor item) (options this) (emitter this, hooks this) with
      | (buses, Returned instance) =>
          spec_activate rest (store_plugin (name item) instance (with_buses buses this))
      | (buses, Thrown err) => (with_buses buses this, Abrupt err)
      | (buses, Lost) => (with_buses buses this, Escaped)
      end
  end.

End Host.

(** The descriptor [use] stores for a constructor. *)
Definition item_of (c : PluginCtor) : PluginItem :=
  mkItem (pluginName c) (ctor_applyOrder c) c.

(** A constructor that attaches nothing and returns an object named after
    the class. *)
Definition inert :
    PluginCtor -> gmap string Value -> EventEmitter * EventEmitter ->
    EventEmitter * EventEmitter * Outcome :=
  fun c _ buses => (buses, Returned (VObj (ctor_ref c))).

(** The registries a program can reach: the empty one at load time, then
    any number of [use] calls and host constructions. *)
Inductive reachable : Registry -> Prop :=
  | reachable_init : reachable (mkRegistry [] ∅)
  | reachable_use c R : reachable R -> reachable (fst (use c R))
  | reachable_new construct opts R :
      reachable R -> reachable (fst (new_CoreConstructor construct opts R)).

(** What every reachable registry satisfies: no constructor is listed
    twice, every descriptor carries the name and order of its constructor,
    and the name table marks exactly the listed names, but for "__proto__",
    which an assignment cannot mark. *)
Definition registry_ok (R : Registry) : Prop :=
  NoDup (map (fun it => ctor_ref (ctor it)) (reg_plugins R)) /\
  Forall (fun it => it = item_of (ctor it)) (reg_plugins R) /\
  forall x, reg_pluginsMap R !! x
            = (if bool_decide (x ∈ map name (reg_plugins R))
                  && negb (String.eqb x "__proto__")
               then Some true else None).

(** The descriptors whose constructor returned: all those called, but for
    the last one when the activation ended abruptly. *)
Definition returned (c : Completion) (called : list PluginItem) : list PluginItem :=
  match c with
  | Normal => called
  | Abrupt _ | Escaped => removelast called
  end.

(** * The Refresh plugin (plugins/refresh.ts) *)

(** The part of [on] that follows [hasType]. *)
Definition on_after (type : string) (fn : Fn) (context : Ctx) (e1 : EventEmitter)
  : EventEmitter * Ending unit :=
  match events_at type e1 with
  | SUndefined => (set_events (<[type := [(fn, context)]]> (events e1)) e1, Returns tt)
  | SArray evs => (set_events (<[type := evs ++ [(fn, context)]]> (events e1)) e1, Returns tt)
  | SInherited _ => (e1, Throws TypeError)
  end.

(** [hasType(undefined)].  [types[undefined]] reads the property named
    "undefined"; declared values are strings, so [types[type] === type]
    holds exactly when there is no such property.  The message prints the
    type as "undefined". *)
Definition hasType_undefined (e : EventEmitter) : EventEmitter :=
  match eventTypes e !! "undefined"%string with
  | Some _ => warn (UnknownEventType "undefined" (dom (eventTypes e))) e
  | None => e
  end.

(** [on(name, fn, context)] where [name] is the value of a property read
    from [eventTypes]: a declared name, or [undefined], which as a property
    key is "undefined". *)
Definition on_name (name : option string) (fn : Fn) (context : Ctx) (e : EventEmitter)
  : EventEmitter * Ending unit :=
  match name with
  | Some type => on type fn context e
  | None => on_after "undefined" fn context (hasType_undefined e)
  end.

Definition REFRESH_HOOKS_NAME : string := "refresh".

(** The field [hooksFn] of a Refresh instance: the triples
    [[hooks, name, handler]], where [hooks] is always the host's [hooks]. *)
Record Refresh : Type := mkRefresh {
  hooksFn : list (option string * Fn)
}.

(** [handleCore()]: [this.core.registerType([REFRESH_HOOKS_NAME])]. *)
Definition handleCore (core : EventEmitter) : EventEmitter :=
  registerType [REFRESH_HOOKS_NAME] core.

(** [registerHooks(hooks, name, handler)]: the push onto [hooksFn] follows
    the call of [on] and is not reached when that call throws. *)
Definition registerHooks (self : nat) (name : option string) (handler : Fn)
    (hooks : EventEmitter) (this : Refresh) : EventEmitter * Ending Refresh :=
  match on_name name handler (CtxObj self) hooks with
  | (hooks', Returns _) => (hooks', Returns (mkRefresh (hooksFn this ++ [(name, handler)])))
  | (hooks', Throws err) => (hooks', Throws err)
  | (hooks', Unmodelled) => (hooks', Unmodelled)
  end.

(** [handleHooks()]: resets [hooksFn] and subscribes a handler to the type
    found at [this.core.hooks.eventTypes.contentChanged]. *)
Definition handleHooks (self : nat) (handler : Fn) (hooks : EventEmitter) (this : Refresh)
  : EventEmitter * Ending Refresh :=
  registerHooks self (eventTypes hooks !! "contentChanged"%string) handler hooks
                (mkRefresh []).

(** [new Refresh(core)]: [self] is the identity of the new instance and
    [handler] that of the arrow function its constructor creates.  The
    host is seen through its two buses. *)
Definition new_Refresh (self : nat) (handler : Fn) (buses : EventEmitter * EventEmitter)
  : EventEmitter * EventEmitter * Ending Refresh :=
  let core := handleCore (fst buses) in
  let '(hooks, this) := handleHooks self handler (snd buses) (mkRefresh []) in
  (core, hooks, this).




(** * Properties of the emitter *)

Lemma is_true_eq v : is_true v = true -> v = VBool true.
Proof. destruct v as [| |[]| | |]; simpl; congruence. Qed.

Lemma fnid_same_refl i : fnid_same i i = true.
Proof. destruct i; cbn; apply Nat.eqb_refl. Qed.

Lemma fn_same_refl f : fn_same f f = true.
Proof. apply fnid_same_refl. Qed.

Lemma hasType_events type e : events (hasType type e) = events e.
Proof. unfold hasType. destruct (isType type e); reflexivity. Qed.

Lemma hasType_eventTypes type e : eventTypes (hasType type e) = eventTypes e.
Proof. unfold hasType. destruct (isType type e); reflexivity. Qed.

Lemma hasType_closures type e : closures (hasType type e) = closures e.
Proof. unfold hasType. destruct (isType type e); reflexivity. Qed.

Lemma hasType_declared type e : isType type e = true -> hasType type e = e.
Proof. unfold hasType. intros ->. reflexivity. Qed.

Lemma hasType_undeclared type e :
  isType type e = false ->
  hasType type e = warn (UnknownEventType type (dom (eventTypes e))) e.
Proof. unfold hasType. intros ->. reflexivity. Qed.

Lemma hasType_events_at type t e : events_at t (hasType type e) = events_at t e.
Proof. unfold events_at. rewrite hasType_events. reflexivity. Qed.

Lemma events_at_own type e evs :
  events e !! type = Some evs -> events_at type e = SArray evs.
Proof. unfold events_at. intros ->. reflexivity. Qed.

Lemma events_at_absent type e :
  events e !! type = None -> Object_prototype type = None ->
  events_at type e = SUndefined.
Proof. unfold events_at. intros -> ->. reflexivity. Qed.

(** What a bus that accepts [type] reads at [type]: its array, or
    [undefined] when it has none. *)
Lemma accepts_events_at type e :
  accepts type e = true ->
  events_at type e
  = match events e !! type with
    | Some evs => SArray evs
    | None => SUndefined
    end.
Proof.
  unfold accepts, events_at. destruct (events e !! type); [reflexivity|].
  destruct (Object_prototype type); [discriminate|reflexivity].
Qed.

Lemma accepts_own type e : is_Some (events e !! type) -> accepts type e = true.
Proof. intros [evs H]. unfold accepts. rewrite (events_at_own _ _ _ H). reflexivity. Qed.

Lemma accepts_ordinary type e : Object_prototype type = None -> accepts type e = true.
Proof.
  intros H. unfold accepts, events_at. rewrite H. destruct (events e !! type); reflexivity.
Qed.

Lemma accepts_hasType type t e : accepts t (hasType type e) = accepts t e.
Proof. unfold accepts. rewrite hasType_events_at. reflexivity. Qed.

(** ** [on] *)

Lemma on_accepted type fn context e :
  accepts type e = true ->
  on type fn context e
  = (set_events (<[type := subscriptions type e ++ [(fn, context)]]> (events e))
                (hasType type e),
     Returns tt).
Proof.
  intros Hacc. unfold on. cbn zeta.
  rewrite hasType_events_at, (accepts_events_at _ _ Hacc), hasType_events.
  unfold subscriptions. destruct (events e !! type); reflexivity.
Qed.

Lemma on_refused type fn context e :
  accepts type e = false -> on type fn context e = (hasType type e, Throws TypeError).
Proof.
  unfold accepts, on. cbn zeta. rewrite hasType_events_at.
  destruct (events_at type e); intros H; try discriminate H. reflexivity.
Qed.

Lemma on_console type fn ctx e :
  console (fst (on type fn ctx e)) = console (hasType type e).
Proof. unfold on. cbn zeta. destruct (events_at type _); reflexivity. Qed.

Lemma on_eventTypes type fn ctx e :
  eventTypes (fst (on type fn ctx e)) = eventTypes e.
Proof.
  unfold on. cbn zeta. destruct (events_at type _); cbn [fst eventTypes set_events];
    apply hasType_eventTypes.
Qed.

Lemma on_closures type fn ctx e : closures (fst (on type fn ctx e)) = closures e.
Proof.
  unfold on. cbn zeta. destruct (events_at type _); cbn [fst closures set_events];
    apply hasType_closures.
Qed.

Lemma on_subscriptions type fn context e :
  accepts type e = true ->
  subscriptions type (fst (on type fn context e))
  = subscriptions type e ++ [(fn, context)].
Proof.
  intros Hacc. rewrite (on_accepted _ _ _ _ Hacc). unfold subscriptions at 1.
  cbn [fst events set_events]. rewrite lookup_insert_eq. reflexivity.
Qed.

Lemma on_lookup type fn context e :
  accepts type e = true ->
  events (fst (on type fn context e)) !! type
  = Some (subscriptions type e ++ [(fn, context)]).
Proof.
  intros Hacc. rewrite (on_accepted _ _ _ _ Hacc).
  cbn [fst events set_events]. apply lookup_insert_eq.
Qed.

Lemma on_lookup_ne type type' fn context e :
  type' <> type ->
  events (fst (on type fn context e)) !! type' = events e !! type'.
Proof.
  intros Hne. unfold on. cbn zeta.
  destruct (events_at type _); cbn [fst events set_events];
    rewrite ?lookup_insert_ne by congruence; rewrite hasType_events; reflexivity.
Qed.

Lemma on_accepts_after type fn context e :
  accepts type e = true -> accepts type (fst (on type fn context e)) = true.
Proof. intros Hacc. apply accepts_own. rewrite on_lookup by exact Hacc. eauto. Qed.

Lemma subscribe_all_accepted type hs e :
  accepts type e = true ->
  snd (subscribe_all type hs e) = Returns tt /\
  accepts type (fst (subscribe_all type hs e)) = true /\
  subscriptions type (fst (subscribe_all type hs e)) = subscriptions type e ++ hs.
Proof.
  revert e. induction hs as [|[f c] hs IH]; intros e Hacc.
  - cbn. rewrite app_nil_r. repeat split. exact Hacc.
  - cbn [subscribe_all fst snd].
    pose proof (on_accepted type f c e Hacc) as Hon.
    pose proof (on_accepts_after type f c e Hacc) as Hacc'.
    pose proof (on_subscriptions type f c e Hacc) as Hsub.
    destruct (on type f c e) as [e1 r]. cbn [fst snd] in *.
    injection Hon as _ ->.
    destruct (IH e1 Hacc') as (Hr & Ha & Hs).
    split; [exact Hr|]. split; [exact Ha|].
    rewrite Hs, Hsub, <- app_assoc. reflexivity.
Qed.

(** ** [off] *)

Lemma off_scan_prefix fn (pre post : list Sub) :
  off_scan fn (length pre) (pre ++ post) = kept fn pre ++ post.
Proof.
  revert post. induction pre as [|x pre IH] using rev_ind; intros post.
  - reflexivity.
  - rewrite length_app, Nat.add_1_r. cbn [off_scan].
    rewrite <- app_assoc. cbn [app].
    rewrite list_lookup_middle by reflexivity.
    unfold kept. rewrite filter_app, filter_cons, filter_nil.
    destruct (off_matches fn x) eqn:Hm.
    + rewrite delete_middle, IH. unfold kept.
      rewrite decide_False by congruence. rewrite app_nil_r. reflexivity.
    + rewrite IH. unfold kept. rewrite decide_True by reflexivity.
      rewrite <- app_assoc. reflexivity.
Qed.

Lemma off_scan_kept fn (evs : list Sub) : off_scan fn (length evs) evs = kept fn evs.
Proof.
  rewrite <- (app_nil_r evs) at 2. rewrite off_scan_prefix, app_nil_r. reflexivity.
Qed.

Lemma off_scan_checked_prefix fn (pre post : list Sub) :
  off_scan_checked fn (length pre) (pre ++ post)
  = Some (off_scan fn (length pre) (pre ++ post)).
Proof.
  revert post. induction pre as [|x pre IH] using rev_ind; intros post.
  - reflexivity.
  - rewrite length_app, Nat.add_1_r. cbn [off_scan off_scan_checked].
    rewrite <- app_assoc. cbn [app].
    rewrite list_lookup_middle by reflexivity.
    destruct (off_matches fn x).
    + rewrite delete_middle. apply IH.
    + apply IH.
Qed.

(** The loop of [off] never reads past the end of the array. *)
Lemma off_scan_in_range fn (evs : list Sub) :
  off_scan_checked fn (length evs) evs = Some (off_scan fn (length evs) evs).
Proof.
  rewrite <- (app_nil_r evs) at 2 4. apply off_scan_checked_prefix.
Qed.

Lemma truthy_str_Some type : type <> EmptyString -> truthy_str (Some type) = true.
Proof.
  intros Hne. cbn. destruct (String.eqb_spec type EmptyString); [contradiction|reflexivity].
Qed.

(** [off(type, f)] for a non-empty type, by what the bus reads at [type]. *)
Lemma off_handler type f e :
  type <> EmptyString ->
  off (Some type) (Some f) e
  = match events_at type e with
    | SUndefined => (hasType type e, Returns ReturnsThis)
    | SArray evs =>
        (set_events (<[type := kept f evs]> (events e)) (hasType type e),
         Returns ReturnsThis)
    | SInherited (IFunction O) => (hasType type e, Returns ReturnsThis)
    | SInherited (IFunction (S _)) => (hasType type e, Throws TypeError)
    | SInherited IProto => (hasType type e, Returns ReturnsThis)
    end.
Proof.
  intros Hne. unfold off. rewrite (truthy_str_Some _ Hne). cbn [negb andb].
  cbn zeta. rewrite hasType_events_at.
  destruct (events_at type e) as [evs|[[|n]|]|]; try reflexivity.
  rewrite off_scan_kept, hasType_events. reflexivity.
Qed.

Lemma off_handler_accepted type f e :
  type <> EmptyString -> accepts type e = true ->
  off (Some type) (Some f) e
  = (match events e !! type with
     | Some evs => set_events (<[type := kept f evs]> (events e)) (hasType type e)
     | None => hasType type e
     end,
     Returns ReturnsThis).
Proof.
  intros Hne Hacc. rewrite off_handler by exact Hne.
  rewrite (accepts_events_at _ _ Hacc). destruct (events e !! type); reflexivity.
Qed.

Lemma off_handler_events type f e :
  type <> EmptyString ->
  events (fst (off (Some type) (Some f) e))
  = match events e !! type with
    | None => events e
    | Some evs => <[type := kept f evs]> (events e)
    end.
Proof.
  intros Hne. rewrite off_handler by exact Hne. unfold events_at.
  destruct (events e !! type) as [evs|]; [reflexivity|].
  destruct (Object_prototype type) as [[[|n]|]|]; apply hasType_events.
Qed.

Lemma off_handler_subscriptions type f e :
  type <> EmptyString ->
  subscriptions type (fst (off (Some type) (Some f) e)) = kept f (subscriptions type e).
Proof.
  intros Hne. unfold subscriptions. rewrite off_handler_events by exact Hne.
  destruct (events e !! type) as [evs|] eqn:Hevs.
  - rewrite lookup_insert_eq. reflexivity.
  - rewrite Hevs. reflexivity.
Qed.

Lemma off_handler_eventTypes type f e :
  eventTypes (fst (off (Some type) (Some f) e)) = eventTypes e.
Proof.
  unfold off. destruct (truthy_str (Some type)); cbn [negb andb]; [|reflexivity].
  cbn zeta. destruct (events_at type _) as [evs|[[|n]|]|];
    cbn [fst eventTypes set_events]; apply hasType_eventTypes.
Qed.

Lemma off_handler_console type f e :
  type <> EmptyString ->
  console (fst (off (Some type) (Some f) e)) = console (hasType type e).
Proof.
  intros Hne. rewrite off_handler by exact Hne.
  destruct (events_at type e) as [evs|[[|n]|]|]; reflexivity.
Qed.

Lemma off_type_only type e :
  type <> EmptyString -> type <> "__proto__"%string ->
  off (Some type) None e
  = (set_events (<[type := []]> (events e)) (hasType type e), Returns ReturnsThis).
Proof.
  intros Hne Hproto. unfold off. rewrite (truthy_str_Some _ Hne).
  cbn [negb andb bool_decide]. cbn zeta.
  destruct (String.eqb_spec type "__proto__") as [->|_]; [contradiction|].
  cbn [andb]. rewrite hasType_events. reflexivity.
Qed.

Lemma kept_no_match f (evs : list Sub) :
  Forall (fun s => off_matches f s = false) (kept f evs).
Proof.
  apply Forall_forall. intros s Hs. unfold kept in Hs.
  apply list_elem_of_filter in Hs. tauto.
Qed.

Lemma kept_In f (evs : list Sub) s :
  In s (kept f evs) -> In s evs /\ off_matches f s = false.
Proof.
  unfold kept. rewrite <- !list_elem_of_In, list_elem_of_filter. tauto.
Qed.

Lemma kept_all f (evs : list Sub) :
  Forall (fun s => off_matches f s = false) evs -> kept f evs = evs.
Proof.
  unfold kept. induction 1 as [|s evs Hs _ IH]; [reflexivity|].
  rewrite filter_cons, decide_True by exact Hs. f_equal. exact IH.
Qed.

Lemma kept_app f (l1 l2 : list Sub) : kept f (l1 ++ l2) = kept f l1 ++ kept f l2.
Proof. unfold kept. apply filter_app. Qed.

Lemma kept_match f (s : Sub) : off_matches f s = true -> kept f [s] = [].
Proof.
  intros Hm. unfold kept. rewrite filter_cons, filter_nil.
  rewrite decide_False; [reflexivity|]. rewrite Hm. discriminate.
Qed.

Lemma off_matches_same f c : off_matches f (f, c) = true.
Proof. unfold off_matches. cbn [fst]. rewrite fn_same_refl. reflexivity. Qed.

Lemma off_matches_adapter uid type f ctx c :
  off_matches f (Magic uid type f ctx, c) = true.
Proof.
  unfold off_matches. cbn [fst fn_fn]. rewrite fnid_same_refl. apply orb_true_r.
Qed.

Lemma kept_self f c : kept f [(f, c)] = [].
Proof. apply kept_match, off_matches_same. Qed.

Lemma off_matches_false f (s : Sub) :
  off_matches f s = false ->
  fn_same (fst s) f = false /\
  forall g, fn_fn (fst s) = Some g -> fnid_same g (fn_id f) = false.
Proof.
  unfold off_matches. intros H. apply orb_false_elim in H as [H1 H2].
  split; [exact H1|]. intros g Hg. rewrite Hg in H2. exact H2.
Qed.

(** ** [once] *)

Lemma once_on type fn ctx e :
  once type fn ctx e
  = on type (Magic (closures e) type fn ctx) CtxThis
       (mkEmitter (events e) (eventTypes e) (S (closures e)) (console (hasType type e))).
Proof.
  unfold once. cbn zeta.
  rewrite hasType_events, hasType_eventTypes, hasType_closures. reflexivity.
Qed.

Lemma once_accepted type fn ctx e :
  accepts type e = true ->
  snd (once type fn ctx e) = Returns tt /\
  events (fst (once type fn ctx e)) !! type
  = Some (subscriptions type e ++ [(Magic (closures e) type fn ctx, CtxThis)]) /\
  closures (fst (once type fn ctx e)) = S (closures e) /\
  eventTypes (fst (once type fn ctx e)) = eventTypes e.
Proof.
  intros Hacc. rewrite once_on.
  set (e2 := mkEmitter _ _ _ _).
  assert (Hacc2 : accepts type e2 = true) by exact Hacc.
  split; [rewrite (on_accepted _ _ _ _ Hacc2); reflexivity|].
  split; [rewrite (on_lookup _ _ _ _ Hacc2); reflexivity|].
  split; [rewrite on_closures | rewrite on_eventTypes]; reflexivity.
Qed.

Lemma once_subscriptions type fn ctx e :
  accepts type e = true ->
  subscriptions type (fst (once type fn ctx e))
  = subscriptions type e ++ [(Magic (closures e) type fn ctx, CtxThis)].
Proof.
  intros Hacc. unfold subscriptions at 1.
  rewrite (proj1 (proj2 (once_accepted type fn ctx e Hacc))). reflexivity.
Qed.

Lemma hasType_console_ext type a b :
  eventTypes a = eventTypes b -> console a = console b ->
  console (hasType type a) = console (hasType type b).
Proof.
  intros Ht Hc. unfold hasType, isType. rewrite Ht.
  destruct (eventTypes b !! type) as [t|]; [destruct (String.eqb t type)|];
    cbn [console warn]; rewrite ?Ht, Hc; reflexivity.
Qed.

Lemma once_console type fn ctx e :
  console (fst (once type fn ctx e)) = console (hasType type (hasType type e)).
Proof.
  unfold once. cbn zeta. rewrite on_console.
  apply hasType_console_ext; reflexivity.
Qed.

(** ** Dispatch *)

Section DispatchFacts.

Variable body : nat -> Ctx -> list Value -> EventEmitter -> EventEmitter * Ending Value.

Lemma apply_User id p c args e :
  apply body (User id p) c args e
  = (fst (body id c args e), snd (body id c args e), []).
Proof. cbn [apply]. destruct (body id c args e). reflexivity. Qed.

Lemma apply_Magic uid type fn ctx c args e :
  apply body (Magic uid type fn ctx) c args e =
    match off (Some type) (Some (Magic uid type fn ctx)) e with
    | (e1, Returns _) =>
        let r := apply body fn ctx args e1 in
        (fst (fst r), only_true (snd (fst r)), mkCall fn ctx args (snd (fst r)) :: snd r)
    | (e1, Throws err) => (e1, Throws err, [])
    | (e1, Unmodelled) => (e1, Unmodelled, [])
    end.
Proof.
  cbn [apply]. destruct (off _ _ e) as [e1 [o|err|]]; try reflexivity.
  destruct (apply body fn ctx args e1) as [[e2 r] inner]. reflexivity.
Qed.

(** What applying a plain subscription does to the bus and how it ends is
    what [spec_invoke] says. *)
Lemma apply_invoke (s : Sub) args e :
  plain s = true ->
  (fst (fst (apply body (fst s) (snd s) args e)),
   snd (fst (apply body (fst s) (snd s) args e)))
  = spec_invoke body args s e.
Proof.
  destruct s as [f c]. unfold plain, spec_invoke. cbn [fst snd].
  destruct f as [id p|uid type [id p|? ? ? ?] ctx]; intros Hp; try discriminate Hp.
  - rewrite apply_User. cbn [fst snd]. destruct (body id c args e); reflexivity.
  - rewrite apply_Magic.
    destruct (off _ _ e) as [e1 [o|err|]]; try reflexivity.
    cbn zeta. rewrite apply_User. cbn [fst snd].
    destruct (body id ctx args e1); reflexivity.
Qed.

Lemma dispatch_cons fn context rest args e :
  dispatch body ((fn, context) :: rest) args e =
    let r := apply body fn context args e in
    let step := mkFired (fn, context) args (snd (fst r)) (snd r) in
    match snd (fst r) with
    | Returns ret =>
        if is_true ret then (fst (fst r), Returns ret, [step])
        else
          let r' := dispatch body rest args (fst (fst r)) in
          (fst (fst r'), snd (fst r'), step :: snd r')
    | Throws err => (fst (fst r), Throws err, [step])
    | Unmodelled => (fst (fst r), Unmodelled, [step])
    end.
Proof.
  cbn [dispatch]. destruct (apply body fn context args e) as [[e1 [ret|err|]] inner];
    cbn [fst snd]; try reflexivity.
  destruct (is_true ret); [reflexivity|].
  destruct (dispatch body rest args e1) as [[e2 r] steps]. reflexivity.
Qed.

(** The loop over plain subscriptions is the pass of the specification. *)
Lemma dispatch_run_pass (evs : list Sub) args e :
  Forall (fun s => plain s = true) evs ->
  (fst (fst (dispatch body evs args e)), snd (fst (dispatch body evs args e)))
  = spec_pass body args evs e.
Proof.
  intros Hplain. revert e. induction Hplain as [|[f c] evs Hs _ IH]; intros e.
  - reflexivity.
  - rewrite dispatch_cons. cbn zeta. cbn [spec_pass].
    rewrite <- (apply_invoke (f, c) args e Hs). cbn [fst snd].
    destruct (snd (fst (apply body f c args e))) as [ret|err|]; try reflexivity.
    destruct (is_true ret) eqn:Hret.
    + apply is_true_eq in Hret. rewrite Hret. reflexivity.
    + cbn [fst snd]. apply IH.
Qed.

(** The steps of the loop are taken from the front of the copied array, in
    order, each with the arguments of [trigger]. *)
Lemma dispatch_steps (evs : list Sub) args e :
  exists rest,
    evs = map fired_sub (snd (dispatch body evs args e)) ++ rest /\
    Forall (fun s => fired_args s = args) (snd (dispatch body evs args e)) /\
    (snd (fst (dispatch body evs args e)) = Returns VUndefined -> rest = []).
Proof.
  revert e. induction evs as [|[f c] evs IH]; intros e.
  - exists []. repeat split. constructor.
  - rewrite dispatch_cons. cbn zeta.
    destruct (snd (fst (apply body f c args e))) as [ret|err|] eqn:Hr.
    + destruct (is_true ret) eqn:Hret; cbn [fst snd].
      * exists evs. split; [reflexivity|]. split; [repeat constructor|].
        intros [= ->]. discriminate Hret.
      * destruct (IH (fst (fst (apply body f c args e)))) as (rest & Hevs & Hargs & Hend).
        exists rest. split; [cbn [map fired_sub app]; f_equal; exact Hevs|].
        split; [constructor; [reflexivity | exact Hargs] | exact Hend].
    + exists evs. cbn [fst snd]. split; [reflexivity|].
      split; [repeat constructor | discriminate].
    + exists evs. cbn [fst snd]. split; [reflexivity|].
      split; [repeat constructor | discriminate].
Qed.

Lemma trigger_unfold type args e :
  trigger body type args e =
    match events_at type e with
    | SUndefined => (hasType type e, Returns VUndefined, [])
    | SArray evs => dispatch body evs args (hasType type e)
    | SInherited _ => (hasType type e, Throws TypeError, [])
    end.
Proof. unfold trigger. cbn zeta. rewrite hasType_events_at. reflexivity. Qed.

Lemma trigger_accepted type args e :
  accepts type e = true ->
  trigger body type args e = dispatch body (subscriptions type e) args (hasType type e).
Proof.
  intros Hacc. rewrite trigger_unfold, (accepts_events_at _ _ Hacc).
  unfold subscriptions. destruct (events e !! type); reflexivity.
Qed.

Lemma trigger_refused type args e :
  accepts type e = false ->
  trigger body type args e = (hasType type e, Throws TypeError, []).
Proof.
  unfold accepts. intros Hacc. rewrite trigger_unfold.
  destruct (events_at type e); try discriminate Hacc. reflexivity.
Qed.

Lemma trigger_no_subscription type args e :
  accepts type e = true -> subscriptions type e = [] ->
  trigger body type args e = (hasType type e, Returns VUndefined, []).
Proof. intros Hacc Hnone. rewrite (trigger_accepted _ _ _ Hacc), Hnone. reflexivity. Qed.

Lemma dispatch_passive (evs : list Sub) args e :
  Forall (fun s => is_user s = true) evs ->
  (forall id p c, In (User id p, c) evs -> forall a e0, fst (body id c a e0) = e0) ->
  fst (fst (dispatch body evs args e)) = e.
Proof.
  revert e. induction evs as [|[f c] evs IH]; intros e Huser Hpassive; [reflexivity|].
  apply Forall_cons in Huser as [Hf Huser].
  destruct f as [id p|]; [|discriminate Hf].
  assert (Hhere : fst (fst (apply body (User id p) c args e)) = e).
  { rewrite apply_User. cbn [fst]. apply (Hpassive id p c). left. reflexivity. }
  rewrite dispatch_cons. cbn zeta.
  destruct (snd (fst (apply body (User id p) c args e))) as [ret|err|];
    cbn [fst]; try exact Hhere.
  destruct (is_true ret); cbn [fst]; [exact Hhere|].
  rewrite Hhere. apply IH; [exact Huser|].
  intros id' p' c' Hin. apply (Hpassive id' p' c'). right. exact Hin.
Qed.

End DispatchFacts.

(** * Subscribing, dispatching and unsubscribing *)

(** C1.  The code at a failing input.  "toString" names a function that
    [events] inherits, also when the type is declared: [on] finds it
    truthy, creates no array and throws at [push].  The handlers are not
    stored, and the following [trigger] throws at [[...events]] without
    applying any. *)
Theorem C1_inherited_type_throws :
  let e := new_EventEmitter ["toString"%string] in
  let hs := [(User 0 None, CtxThis); (User 1 None, CtxObj 5)] in
  subscribe_all "toString" hs e = (e, Throws TypeError) /\
  trigger answer "toString" [VNum 1] e = (e, Throws TypeError, []).
Proof. vm_compute. split; reflexivity. Qed.

(** C2.  The code at a failing input.  The type "constructor" holds three
    subscriptions: function 0, which calls [this.off()], the adapter of
    [once] around function 1, and function 2.  In the pass, function 0
    drops every array; the adapter's [this.off(type, magic)] then reads the
    inherited function [Object] at "constructor" and throws; function 2,
    which was subscribed when [trigger] was called, is not applied, and
    neither is function 1. *)
Theorem C2_pass_cut_short :
  let e0 := fst (off (Some "constructor"%string) None
                   (new_EventEmitter ["constructor"%string])) in
  let e1 := fst (on "constructor" (User 0 None) CtxThis e0) in
  let e2 := fst (once "constructor" (User 1 None) CtxThis e1) in
  let e := fst (on "constructor" (User 2 None) CtxThis e2) in
  let m := Magic 0 "constructor" (User 1 None) CtxThis in
  let r := trigger clearing "constructor" [] e in
  subscriptions "constructor" e
  = [(User 0 None, CtxThis); (m, CtxThis); (User 2 None, CtxThis)] /\
  snd (fst r) = Throws TypeError /\
  map fired_sub (snd r) = [(User 0 None, CtxThis); (m, CtxThis)] /\
  map call_ret (calls (snd r)) = [Returns VUndefined; Throws TypeError] /\
  invocations (User 2 None) (calls (snd r)) = 0.
Proof. vm_compute. repeat split; reflexivity. Qed.

(** C3.  The code at a failing input.  With the empty string as type, the
    adapter's [this.off(type, magic)] takes the type for absent and removes
    nothing: the adapter stays subscribed and both passes apply the
    handler, which returns 42 each time. *)
Theorem C3_empty_type_fires_twice :
  let e := fst (once EmptyString (User 0 None) CtxThis (new_EventEmitter [EmptyString])) in
  let r1 := trigger answer EmptyString [] e in
  let r2 := trigger answer EmptyString [] (fst (fst r1)) in
  snd (once EmptyString (User 0 None) CtxThis (new_EventEmitter [EmptyString]))
  = Returns tt /\
  map call_ret (calls (snd r1)) = [Returns VUndefined; Returns (VNum 42)] /\
  invocations (User 0 None) (calls (snd r1)) = 1 /\
  invocations (User 0 None) (calls (snd r2)) = 1 /\
  subscriptions EmptyString (fst (fst r2))
  = [(Magic 0 EmptyString (User 0 None) CtxThis, CtxThis)].
Proof. vm_compute. repeat split; reflexivity. Qed.

(** C4.  The code at a failing input.  With the empty string as type,
    [off(type, h)] takes the type for absent: it removes nothing and
    returns no value, and the following [trigger] applies the handler. *)
Theorem C4_empty_type_not_removed :
  let e := fst (on EmptyString (User 0 None) CtxThis (new_EventEmitter [EmptyString])) in
  let r := trigger answer EmptyString [] (fst (off (Some EmptyString) (Some (User 0 None)) e)) in
  off (Some EmptyString) (Some (User 0 None)) e = (e, Returns ReturnsUndefined) /\
  subscriptions EmptyString e = [(User 0 None, CtxThis)] /\
  map call_ret (calls (snd r)) = [Returns (VNum 42)] /\
  invocations (User 0 None) (calls (snd r)) = 1.
Proof. vm_compute. repeat split; reflexivity. Qed.

Lemma only_true_value v :
  only_true (Returns v) = Returns (if is_true v then VBool true else VUndefined).
Proof.
  cbn [only_true]. destruct (is_true v) eqn:Hv; [|reflexivity].
  apply is_true_eq in Hv. rewrite Hv. reflexivity.
Qed.

(** C5 (amended).  The adapter built by [once(type, h, ctx)] for a
    non-empty [type], applied on a bus where its call [this.off(type,
    magic)] returns: it is no longer stored for [type] when [h] runs; [h] is
    applied to the context given to [once] and to the arguments the adapter
    received, on the bus that call left; the adapter returns [true] when
    [h] returned exactly [true] and no value for every other value, and
    throws what [h] throws.  For a function [h] of the caller, the bus the
    adapter leaves and the value it works on are those of the body of
    [h]. *)
Theorem C5_once_adapter
    (body : nat -> Ctx -> list Value -> EventEmitter -> EventEmitter * Ending Value)
    uid type h ctx c args e :
  let m := Magic uid type h ctx in
  let e1 := fst (off (Some type) (Some m) e) in
  let r := apply body h ctx args e1 in
  type <> EmptyString ->
  snd (off (Some type) (Some m) e) = Returns ReturnsThis ->
  Forall (fun s => fn_same (fst s) m = false) (subscriptions type e1) /\
  apply body m c args e
  = (fst (fst r), only_true (snd (fst r)), mkCall h ctx args (snd (fst r)) :: snd r) /\
  (forall v, snd (fst r) = Returns v ->
     snd (fst (apply body m c args e))
     = Returns (if is_true v then VBool true else VUndefined)) /\
  (forall id p, h = User id p ->
     apply body m c args e
     = (fst (body id ctx args e1),
        only_true (snd (body id ctx args e1)),
        [mkCall h ctx args (snd (body id ctx args e1))])).
Proof.
  cbn zeta. intros Hne Hoff.
  assert (Happly :
    apply body (Magic uid type h ctx) c args e
    = (fst (fst (apply body h ctx args
                   (fst (off (Some type) (Some (Magic uid type h ctx)) e)))),
       only_true (snd (fst (apply body h ctx args
                              (fst (off (Some type) (Some (Magic uid type h ctx)) e))))),
       mkCall h ctx args
         (snd (fst (apply body h ctx args
                      (fst (off (Some type) (Some (Magic uid type h ctx)) e)))))
       :: snd (apply body h ctx args
                 (fst (off (Some type) (Some (Magic uid type h ctx)) e))))).
  { rewrite apply_Magic.
    destruct (off (Some type) (Some (Magic uid type h ctx)) e) as [e1 r].
    cbn [fst snd] in *. subst r. reflexivity. }
  split; [|split; [exact Happly|split]].
  - rewrite off_handler_subscriptions by exact Hne.
    eapply Forall_impl; [apply kept_no_match|].
    intros s Hs. apply off_matches_false in Hs. tauto.
  - intros v Hv. rewrite Happly. cbn [fst snd]. rewrite Hv. apply only_true_value.
  - intros id p ->. rewrite Happly, apply_User. reflexivity.
Qed.

Lemma C5_once_adapter_witness :
  let e := fst (once "tap" (User 0 None) (CtxObj 1) (new_EventEmitter ["tap"%string])) in
  let m := Magic 0 "tap" (User 0 None) (CtxObj 1) in
  subscriptions "tap" e = [(m, CtxThis)] /\
  apply answer m CtxThis [VNum 1] e
  = (fst (off (Some "tap"%string) (Some m) e), Returns VUndefined,
     [mkCall (User 0 None) (CtxObj 1) [VNum 1] (Returns (VNum 42))]).
Proof.
  cbn zeta. split; [vm_compute; reflexivity|].
  destruct (C5_once_adapter answer 0 "tap" (User 0 None) (CtxObj 1) CtxThis [VNum 1]
              (fst (once "tap" (User 0 None) (CtxObj 1) (new_EventEmitter ["tap"%string]))))
    as (_ & _ & _ & Happly); [discriminate | vm_compute; reflexivity |].
  rewrite (Happly 0 None eq_refl). reflexivity.
Defined.

(** C5 as stated fails when the handler returns a value other than [true]:
    the adapter drops it and returns no value. *)
Lemma C5_counterexample :
  let e := fst (once "tap" (User 0 None) CtxThis (new_EventEmitter ["tap"%string])) in
  let m := Magic 0 "tap" (User 0 None) CtxThis in
  subscriptions "tap" e = [(m, CtxThis)] /\
  snd (answer 0 CtxThis [] (fst (off (Some "tap"%string) (Some m) e))) = Returns (VNum 42) /\
  snd (fst (apply answer m CtxThis [] e)) = Returns VUndefined.
Proof. vm_compute. repeat split; reflexivity. Qed.

(** C8.  The code at two failing inputs.  [on] with the undeclared type
    "toString" reports the type and then throws: nothing is subscribed.
    [off] with the undeclared empty string as type reports nothing: with a
    handler it does nothing at all, without one it drops the subscriptions
    of every type. *)
Theorem C8_undeclared_type_not_tolerated :
  let e0 := new_EventEmitter ["tap"%string] in
  let e := fst (on EmptyString (User 0 None) CtxThis e0) in
  isType "toString" e0 = false /\
  on "toString" (User 0 None) CtxThis e0
  = (warn (UnknownEventType "toString" {["tap"%string]}) e0, Throws TypeError) /\
  subscriptions "toString" (fst (on "toString" (User 0 None) CtxThis e0)) = [] /\
  isType EmptyString e = false /\
  off (Some EmptyString) (Some (User 0 None)) e = (e, Returns ReturnsUndefined) /\
  off (Some EmptyString) None e = (set_events ∅ e, Returns ReturnsThis).
Proof. vm_compute. repeat split; reflexivity. Qed.

(** C10. [off(undefined, h)] changes nothing on the bus, neither the
    subscriptions nor the declared types, and returns no value instead of
    the emitter. *)
Theorem C10_off_handler_without_type h e :
  off None (Some h) e = (e, Returns ReturnsUndefined).
Proof. reflexivity. Qed.

(** * Properties of the registry and the host *)

(** ** Registration *)

Lemma use_installed c R :
  existsb (fun plugin => ctor_same c (ctor plugin)) (reg_plugins R) = true ->
  use c R = (R, CoreConstructorClass).
Proof. unfold use. cbn zeta. intros ->. reflexivity. Qed.

Lemma use_fresh c R :
  existsb (fun plugin => ctor_same c (ctor plugin)) (reg_plugins R) = false ->
  use c R
  = (mkRegistry (reg_plugins R ++ [mkItem (pluginName c) (ctor_applyOrder c) c])
                (assign_primitive (pluginName c) true (reg_pluginsMap R)),
     CoreConstructorClass).
Proof. unfold use. cbn zeta. intros ->. reflexivity. Qed.

Lemma use_installs c R :
  existsb (fun plugin => ctor_same c (ctor plugin)) (reg_plugins (fst (use c R))) = true.
Proof.
  destruct (existsb (fun plugin => ctor_same c (ctor plugin)) (reg_plugins R)) eqn:Hin.
  - rewrite use_installed by exact Hin. exact Hin.
  - rewrite use_fresh by exact Hin. cbn [fst reg_plugins].
    rewrite existsb_app. cbn [existsb ctor]. unfold ctor_same at 2.
    rewrite Nat.eqb_refl, orb_true_r. reflexivity.
Qed.

(** C7. A second [use(ctor)] with the same constructor leaves the registry
    as the first call left it (same descriptors, same name table) and
    returns the class again.  [use] with a constructor that is not yet in
    the registry appends a descriptor for it, also when another constructor
    with the same [pluginName] is registered already. *)
Theorem C7_use_same_constructor_twice c R :
  use c (fst (use c R)) = (fst (use c R), CoreConstructorClass) /\
  snd (use c R) = CoreConstructorClass /\
  forall d,
    existsb (fun plugin => ctor_same d (ctor plugin)) (reg_plugins R) = false ->
    reg_plugins (fst (use d R))
    = reg_plugins R ++ [mkItem (pluginName d) (ctor_applyOrder d) d].
Proof.
  split; [apply use_installed, use_installs|]. split.
  - unfold use. cbn zeta. destruct (existsb _ _); reflexivity.
  - intros d Hd. rewrite use_fresh by exact Hd. reflexivity.
Qed.

(** Two different constructors that share a name are both registered. *)
Example use_same_name_twice :
  let a := mkCtor 1 "refresh" None in
  let b := mkCtor 2 "refresh" (Some Pre) in
  let R := fst (use b (fst (use a (mkRegistry [] ∅)))) in
  map name (reg_plugins R) = ["refresh"%string; "refresh"%string] /\
  length (reg_plugins (fst (use a R))) = 2.
Proof. vm_compute. split; reflexivity. Qed.

(** ** Activation order *)

Lemma order_key_range o : (-1 <= order_key o <= 1)%Z.
Proof. destruct o as [[|]|]; cbn; lia. Qed.

Lemma sort_insert_stop {A} (comparefn : A -> A -> Z) x l :
  (forall y, In y l -> (comparefn x y <= 0)%Z) ->
  sort_insert comparefn x l = x :: l.
Proof.
  destruct l as [|y l]; intros Hle; cbn [sort_insert]; [reflexivity|].
  destruct (Z.leb_spec (comparefn x y) 0) as [_|Hgt]; [reflexivity|].
  specialize (Hle y (or_introl eq_refl)). lia.
Qed.

Lemma sort_insert_skip {A} (comparefn : A -> A -> Z) x l1 l2 :
  (forall y, In y l1 -> (0 < comparefn x y)%Z) ->
  sort_insert comparefn x (l1 ++ l2) = l1 ++ sort_insert comparefn x l2.
Proof.
  induction l1 as [|y l1 IH]; intros Hgt; cbn [app sort_insert]; [reflexivity|].
  destruct (Z.leb_spec (comparefn x y) 0) as [Hle|_].
  - specialize (Hgt y (or_introl eq_refl)). lia.
  - f_equal. apply IH. intros z Hz. apply Hgt. right. exact Hz.
Qed.

Lemma with_order_key o l y :
  In y (with_order o l) -> order_key (applyOrder y) = order_key o.
Proof.
  unfold with_order. intros Hy. apply filter_In in Hy as [_ Hy].
  apply Z.eqb_eq in Hy. exact Hy.
Qed.

Lemma with_order_cons o x l :
  with_order o (x :: l)
  = if (order_key (applyOrder x) =? order_key o)%Z
    then x :: with_order o l else with_order o l.
Proof. reflexivity. Qed.

(** The sorted list: the [Pre] items, then the untagged ones, then the
    [Post] items, each group in the order it had before. *)
Lemma sort_by_order l :
  sort compare_items l
  = with_order (Some Pre) l ++ with_order None l ++ with_order (Some Post) l.
Proof.
  induction l as [|x l IH]; [reflexivity|].
  cbn [sort]. rewrite IH, !with_order_cons.
  destruct (applyOrder x) as [[|]|] eqn:Hx; cbn [order_key Z.eqb Pos.eqb].
  - apply sort_insert_stop. intros y Hy. unfold compare_items. rewrite Hx.
    pose proof (order_key_range (applyOrder y)). cbn [order_key]. lia.
  - rewrite sort_insert_skip.
    2:{ intros y Hy. apply with_order_key in Hy. unfold compare_items.
        rewrite Hx, Hy. cbn [order_key]. lia. }
    f_equal. rewrite sort_insert_skip.
    2:{ intros y Hy. apply with_order_key in Hy. unfold compare_items.
        rewrite Hx, Hy. cbn [order_key]. lia. }
    f_equal. apply sort_insert_stop. intros y Hy. apply with_order_key in Hy.
    unfold compare_items. rewrite Hx, Hy. cbn [order_key]. lia.
  - rewrite sort_insert_skip.
    2:{ intros y Hy. apply with_order_key in Hy. unfold compare_items.
        rewrite Hx, Hy. cbn [order_key]. lia. }
    f_equal. apply sort_insert_stop. intros y Hy.
    apply in_app_or in Hy as [Hy|Hy]; apply with_order_key in Hy;
      unfold compare_items; rewrite Hx, Hy; cbn [order_key]; lia.
Qed.

Lemma sort_In l it : In it (sort compare_items l) <-> In it l.
Proof.
  rewrite sort_by_order, !in_app_iff. unfold with_order. rewrite !filter_In.
  split; [tauto|]. intros Hit. cbn beta.
  destruct (applyOrder it) as [[|]|]; cbn; tauto.
Qed.

Lemma use_three a b c :
  ctor_ref a <> ctor_ref b -> ctor_ref a <> ctor_ref c -> ctor_ref b <> ctor_ref c ->
  reg_plugins (fst (use c (fst (use b (fst (use a (mkRegistry [] ∅)))))))
  = [item_of a; item_of b; item_of c].
Proof.
  intros Hab Hac Hbc. unfold use, ctor_same. cbn.
  rewrite (proj2 (Nat.eqb_neq (ctor_ref b) (ctor_ref a))) by congruence. cbn.
  rewrite (proj2 (Nat.eqb_neq (ctor_ref c) (ctor_ref a))) by congruence.
  rewrite (proj2 (Nat.eqb_neq (ctor_ref c) (ctor_ref b))) by congruence.
  reflexivity.
Qed.

(** ** Activation *)

Lemma store_plugin_options n v this : options (store_plugin n v this) = options this.
Proof.
  unfold store_plugin. destruct (_ && _); [|reflexivity].
  destruct (object_or_null v); reflexivity.
Qed.


Lemma enabled_unfold o item : enabled o item = option_truthy o (name item).
Proof. unfold enabled, is_function. apply andb_true_r. Qed.

Section HostFacts.

Variable construct :
  PluginCtor -> gmap string Value -> EventEmitter * EventEmitter ->
  EventEmitter * EventEmitter * Outcome.

Lemma forEach_apply_cons item rest this :
  forEach_apply construct (item :: rest) this =
    if enabled (options this) item then
      let r0 := construct (ctor item) (options this) (emitter this, hooks this) in
      match snd r0 with
      | Thrown err => (with_buses (fst r0) this, Abrupt err, [item])
      | Lost => (with_buses (fst r0) this, Escaped, [item])
      | Returned instance =>
          let r := forEach_apply construct rest
                     (store_plugin (name item) instance (with_buses (fst r0) this)) in
          (fst (fst r), snd (fst r), item :: snd r)
      end
    else forEach_apply construct rest this.
Proof.
  cbn [forEach_apply]. unfold enabled.
  destruct (option_truthy _ _ && is_function _); [|reflexivity].
  destruct (construct _ _ _) as [buses [instance|err|]]; cbn [fst snd]; try reflexivity.
  destruct (forEach_apply construct rest _) as [[this3 c] log]. reflexivity.
Qed.


(** The visit of the list is the activation of its enabled items. *)
Lemma forEach_instantiate items this :
  (fst (fst (forEach_apply construct items this)),
   snd (fst (forEach_apply construct items this)))
  = spec_activate construct (List.filter (enabled (options this)) items) this.
Proof.
  revert this. induction items as [|item items IH]; intros this; [reflexivity|].
  rewrite forEach_apply_cons. cbn [List.filter].
  destruct (enabled (options this) item); [|apply IH].
  cbn zeta. cbn [spec_activate].
  destruct (construct (ctor item) (options this) (emitter this, hooks this))
    as [buses [instance|err|]]; cbn [fst snd]; try reflexivity.
  rewrite IH, store_plugin_options. reflexivity.
Qed.

(** The constructors called are those of the enabled items, in the order
    of the list, up to the first constructor that does not return. *)
Lemma forEach_apply_log items this :
  exists rest,
    List.filter (enabled (options this)) items
    = snd (forEach_apply construct items this) ++ rest /\
    (snd (fst (forEach_apply construct items this)) = Normal -> rest = []).
Proof.
  revert this. induction items as [|item items IH]; intros this.
  - exists []. split; reflexivity.
  - rewrite forEach_apply_cons. cbn [List.filter].
    destruct (enabled (options this) item); [|apply IH].
    cbn zeta. destruct (snd (construct _ _ _)) as [instance|err|].
    + cbn [fst snd].
      match goal with |- context [forEach_apply construct items ?t] =>
        destruct (IH t) as (rest & Hlog & Hnormal) end.
      rewrite store_plugin_options in Hlog. cbn [options with_buses] in Hlog.
      exists rest. split.
      * cbn [app]. f_equal. exact Hlog.
      * exact Hnormal.
    + cbn [fst snd]. exists (List.filter (enabled (options this)) items).
      split; [reflexivity|discriminate].
    + cbn [fst snd]. exists (List.filter (enabled (options this)) items).
      split; [reflexivity|discriminate].
Qed.



(** A visit that does not end normally ends in the constructor called
    last, which threw or was lost. *)
Lemma forEach_apply_ended items this :
  snd (fst (forEach_apply construct items this)) <> Normal ->
  exists item this',
    last (snd (forEach_apply construct items this)) = Some item /\
    match snd (construct (ctor item) (options this) (emitter this', hooks this')) with
    | Returned _ => False
    | Thrown err => snd (fst (forEach_apply construct items this)) = Abrupt err
    | Lost => snd (fst (forEach_apply construct items this)) = Escaped
    end.
Proof.
  revert this. induction items as [|item items IH]; intros this.
  - intros H. exfalso. apply H. reflexivity.
  - rewrite forEach_apply_cons. destruct (enabled _ _); [|apply IH].
    cbn zeta.
    destruct (snd (construct (ctor item) (options this) (emitter this, hooks this)))
      as [instance|err|] eqn:Hout.
    + cbn [fst snd]. intros Hab.
      apply IH in Hab as (it & this' & Hlast & Hend).
      exists it, this'. rewrite store_plugin_options in Hend.
      cbn [options with_buses] in Hend. split; [|exact Hend].
      rewrite last_cons, Hlast. reflexivity.
    + cbn [fst snd]. intros _. exists item, this.
      split; [reflexivity|]. rewrite Hout. reflexivity.
    + cbn [fst snd]. intros _. exists item, this.
      split; [reflexivity|]. rewrite Hout. reflexivity.
Qed.

Lemma forEach_apply_none_enabled items this :
  Forall (fun it => enabled (options this) it = false) items ->
  forEach_apply construct items this = (this, Normal, []).
Proof.
  induction 1 as [|item items Hitem _ IH]; [reflexivity|].
  rewrite forEach_apply_cons, Hitem. exact IH.
Qed.

Lemma new_CoreConstructor_merged opts o R :
  merge opts new_OptionsConstructor = Some o ->
  new_CoreConstructor construct opts R = applyPlugins construct R (new_host o).
Proof. unfold new_CoreConstructor. intros ->. reflexivity. Qed.


End HostFacts.

(** C6. The constructor of a host sorts the shared list so that the [Pre]
    items come first, then the untagged ones, then the [Post] items, every
    group keeping the order it had.  The host it builds is the one obtained
    by calling the constructors of the enabled items in the order of the
    sorted list, each on the host the previous one left, and storing each
    instance; the constructors called are those items, all of them unless
    a constructor does not return, which ends the activation.  With [A]
    ([Pre]), [B] ([Post]) and [C] (untagged) registered in that order and
    all enabled, the constructors run in the order [A], [C], [B].  The
    options are those that leave the prototype of the options object in
    place. *)
Theorem C6_apply_order
    (construct : PluginCtor -> gmap string Value -> EventEmitter * EventEmitter ->
                 EventEmitter * EventEmitter * Outcome)
    opts o R :
  merge opts new_OptionsConstructor = Some o ->
  let r := new_CoreConstructor construct opts R in
  let sorted := reg_plugins (fst r) in
  let this := fst (fst (snd r)) in
  let called := snd (snd r) in
  let completion := snd (fst (snd r)) in
  sorted = with_order (Some Pre) (reg_plugins R)
           ++ with_order None (reg_plugins R)
           ++ with_order (Some Post) (reg_plugins R) /\
  (this, completion)
  = spec_activate construct (List.filter (enabled o) sorted) (new_host o) /\
  (exists rest,
     List.filter (enabled o) sorted = called ++ rest /\
     (completion = Normal -> rest = [])) /\
  (forall a b c,
     ctor_applyOrder a = Some Pre ->
     ctor_applyOrder b = Some Post ->
     ctor_applyOrder c = None ->
     ctor_ref a <> ctor_ref b -> ctor_ref a <> ctor_ref c -> ctor_ref b <> ctor_ref c ->
     R = fst (use c (fst (use b (fst (use a (mkRegistry [] ∅)))))) ->
     enabled o (item_of a) = true -> enabled o (item_of b) = true ->
     enabled o (item_of c) = true ->
     sorted = [item_of a; item_of c; item_of b] /\
     (this, completion)
     = spec_activate construct [item_of a; item_of c; item_of b] (new_host o) /\
     (completion = Normal -> called = [item_of a; item_of c; item_of b])).
Proof.
  intros Hmerge. cbn zeta. rewrite (new_CoreConstructor_merged _ _ _ _ Hmerge).
  unfold applyPlugins. cbn [fst snd reg_plugins].
  split; [apply sort_by_order|].
  pose proof (forEach_instantiate construct (sort compare_items (reg_plugins R)) (new_host o))
    as Hinst.
  pose proof (forEach_apply_log construct (sort compare_items (reg_plugins R)) (new_host o))
    as (rest & Hlog & Hnormal).
  cbn [options new_host] in Hinst, Hlog.
  split; [exact Hinst|]. split.
  - exists rest. split; [exact Hlog | exact Hnormal].
  - intros a b c Ha Hb Hc Hab Hac Hbc -> Hea Heb Hec.
    rewrite use_three in * by assumption.
    assert (Hsorted : sort compare_items [item_of a; item_of b; item_of c]
                      = [item_of a; item_of c; item_of b]).
    { rewrite sort_by_order. unfold with_order, item_of.
      cbn [List.filter applyOrder]. rewrite Ha, Hb, Hc. reflexivity. }
    rewrite Hsorted in *. cbn [List.filter] in Hinst, Hlog.
    rewrite Hea, Hec, Heb in Hinst, Hlog.
    split; [reflexivity|]. split; [exact Hinst|].
    intros Hn. specialize (Hnormal Hn). subst rest.
    rewrite app_nil_r in Hlog. symmetry. exact Hlog.
Qed.

(** The three plugins of the example, registered in the order [A], [B],
    [C] and all enabled. *)
Lemma C6_apply_order_witness :
  let a := mkCtor 1 "A" (Some Pre) in
  let b := mkCtor 2 "B" (Some Post) in
  let c := mkCtor 3 "C" None in
  let R := fst (use c (fst (use b (fst (use a (mkRegistry [] ∅)))))) in
  let opts : gmap string Value :=
    <["A"%string := VBool true]> (<["B"%string := VBool true]> (<["C"%string := VObj 0]> ∅)) in
  map name (snd (snd (new_CoreConstructor inert (Some opts) R)))
  = ["A"%string; "C"%string; "B"%string].
Proof.
  cbn zeta.
  pose proof (C6_apply_order inert
    (Some (<["A"%string := VBool true]> (<["B"%string := VBool true]>
             (<["C"%string := VObj 0]> (∅ : gmap string Value)))))
    (<["A"%string := VBool true]> (<["B"%string := VBool true]>
       (<["C"%string := VObj 0]> (∅ : gmap string Value))) ∪ new_OptionsConstructor)
    (fst (use (mkCtor 3 "C" None)
            (fst (use (mkCtor 2 "B" (Some Post))
                    (fst (use (mkCtor 1 "A" (Some Pre)) (mkRegistry [] ∅)))))))
    eq_refl)
    as (_ & _ & _ & Habc).
  pose proof (Habc (mkCtor 1 "A" (Some Pre)) (mkCtor 2 "B" (Some Post))
                (mkCtor 3 "C" None) eq_refl eq_refl eq_refl
                ltac:(discriminate) ltac:(discriminate) ltac:(discriminate)
                eq_refl eq_refl eq_refl eq_refl) as (_ & _ & Hcalled).
  rewrite Hcalled; [reflexivity|]. vm_compute. reflexivity.
Defined.

Lemma filter_ext_In {A} (f g : A -> bool) (l : list A) :
  (forall x, In x l -> f x = g x) -> List.filter f l = List.filter g l.
Proof.
  induction l as [|x l IH]; intros Hfg; [reflexivity|].
  cbn [List.filter]. rewrite (Hfg x (or_introl eq_refl)).
  rewrite IH; [reflexivity|]. intros y Hy. apply Hfg. right. exact Hy.
Qed.



(** * Further properties of the emitter *)

(** ** The modes of [off] *)

(** X1. The removal loop of [off(type, fn)], which walks the array from
    its last index down and splices matching entries out in place, never
    reads past the end of the array, and leaves exactly the entries that do
    not match, in their order. *)
Theorem X1_off_scan_safe fn (evs : list Sub) :
  off_scan_checked fn (length evs) evs
  = Some (filter (fun s => off_matches fn s = false) evs) /\
  off_scan fn (length evs) evs = filter (fun s => off_matches fn s = false) evs.
Proof.
  rewrite off_scan_in_range, off_scan_kept. split; reflexivity.
Qed.

Lemma events_at_empty type e :
  events e = ∅ ->
  events_at type e
  = match Object_prototype type with
    | Some i => SInherited i
    | None => SUndefined
    end.
Proof. unfold events_at. intros ->. rewrite lookup_empty. reflexivity. Qed.

Lemma trigger_empty
    (body : nat -> Ctx -> list Value -> EventEmitter -> EventEmitter * Ending Value)
    type args e :
  events e = ∅ ->
  trigger body type args e
  = (hasType type e,
     match Object_prototype type with
     | Some _ => Throws TypeError
     | None => Returns VUndefined
     end,
     []).
Proof.
  intros Hempty. rewrite trigger_unfold, (events_at_empty _ _ Hempty).
  destruct (Object_prototype type); reflexivity.
Qed.

(** X2. [off()] without arguments drops the subscriptions of every type,
    keeps the declared types and the diagnostics, and returns the emitter.
    A following [trigger] applies nothing: it returns no value, or throws
    when the type is the name of a property the empty [events] object
    inherits.  [off] called with the empty string as type and no handler
    does the same as [off()]. *)
Theorem X2_off_all
    (body : nat -> Ctx -> list Value -> EventEmitter -> EventEmitter * Ending Value)
    type args e :
  let r := off None None e in
  snd r = Returns ReturnsThis /\
  events (fst r) = ∅ /\
  eventTypes (fst r) = eventTypes e /\
  console (fst r) = console e /\
  isType type (fst r) = isType type e /\
  trigger body type args (fst r)
  = (hasType type (fst r),
     match Object_prototype type with
     | Some _ => Throws TypeError
     | None => Returns VUndefined
     end,
     []) /\
  off (Some EmptyString) None e = r.
Proof.
  cbn zeta. repeat split.
  apply trigger_empty. reflexivity.
Qed.

(** X3. [off(type)] with no handler and a type that is neither the empty
    string nor "__proto__" empties the subscriptions of that type (storing
    an empty array even when the type had none), leaves every other type
    and the declared types alone, and returns the emitter. *)
Theorem X3_off_type type type' e :
  type <> EmptyString ->
  type <> "__proto__"%string ->
  let r := off (Some type) None e in
  snd r = Returns ReturnsThis /\
  events (fst r) !! type = Some [] /\
  (type' <> type -> events (fst r) !! type' = events e !! type') /\
  eventTypes (fst r) = eventTypes e.
Proof.
  intros Hne Hproto. cbn zeta. rewrite off_type_only by assumption.
  cbn [fst snd events eventTypes set_events]. rewrite ?hasType_events, ?hasType_eventTypes.
  repeat split.
  - apply lookup_insert_eq.
  - intros Hne'. apply lookup_insert_ne. congruence.
Qed.

Lemma X3_off_type_witness :
  let e := fst (on "drag" (User 1 None) CtxThis
                  (fst (on "tap" (User 0 None) CtxThis (new_EventEmitter [])))) in
  events (fst (off (Some "tap"%string) None e)) !! "tap"%string = Some [] /\
  events (fst (off (Some "tap"%string) None e)) !! "drag"%string
  = Some [(User 1 None, CtxThis)].
Proof.
  cbn zeta.
  destruct (X3_off_type "tap" "drag"
              (fst (on "drag" (User 1 None) CtxThis
                      (fst (on "tap" (User 0 None) CtxThis (new_EventEmitter []))))))
    as (_ & Htap & Hdrag & _); [discriminate | discriminate |].
  split; [exact Htap|]. rewrite Hdrag by discriminate. vm_compute. reflexivity.
Defined.

(** X4. [off(type, h)] with a non-empty type touches the subscriptions of
    that type only: other types and the declared types stay as they are, a
    type without an array gets none, the list never grows, and the list is
    unchanged when no stored function is [h] or holds [h] in its property
    [fn].  On a bus that can hold subscriptions for [type] the call returns
    the emitter. *)
Theorem X4_off_handler_frame type type' h e :
  type <> EmptyString ->
  let e1 := fst (off (Some type) (Some h) e) in
  (type' <> type -> events e1 !! type' = events e !! type') /\
  eventTypes e1 = eventTypes e /\
  (events e !! type = None -> events e1 = events e) /\
  length (subscriptions type e1) <= length (subscriptions type e) /\
  (Forall (fun s => off_matches h s = false) (subscriptions type e) ->
   subscriptions type e1 = subscriptions type e) /\
  (accepts type e = true -> snd (off (Some type) (Some h) e) = Returns ReturnsThis).
Proof.
  intros Hne. cbn zeta. split; [|split; [|split; [|split; [|split]]]].
  - intros Hne'. rewrite off_handler_events by exact Hne.
    destruct (events e !! type); [|reflexivity].
    apply lookup_insert_ne. congruence.
  - apply off_handler_eventTypes.
  - intros Hnone. rewrite off_handler_events by exact Hne. rewrite Hnone. reflexivity.
  - rewrite off_handler_subscriptions by exact Hne. unfold kept. apply length_filter.
  - intros Hno. rewrite off_handler_subscriptions by exact Hne. apply kept_all, Hno.
  - intros Hacc. rewrite off_handler_accepted by assumption. reflexivity.
Qed.

Lemma X4_off_handler_frame_witness :
  let e := fst (on "drag" (User 1 None) CtxThis
                  (fst (on "tap" (User 0 None) CtxThis (new_EventEmitter [])))) in
  let e1 := fst (off (Some "tap"%string) (Some (User 1 None)) e) in
  events e1 !! "drag"%string = Some [(User 1 None, CtxThis)] /\
  subscriptions "tap" e1 = [(User 0 None, CtxThis)].
Proof.
  cbn zeta.
  destruct (X4_off_handler_frame "tap" "drag" (User 1 None)
              (fst (on "drag" (User 1 None) CtxThis
                      (fst (on "tap" (User 0 None) CtxThis (new_EventEmitter []))))))
    as (Hdrag & _ & _ & _ & Hsame & _); [discriminate|].
  split.
  - rewrite Hdrag by discriminate. vm_compute. reflexivity.
  - rewrite Hsame; [vm_compute; reflexivity|]. vm_compute. repeat constructor.
Defined.

(** A function of the caller that holds [h] in its property [fn] is
    removed by [off(type, h)], like the adapter of [once]. *)
Example off_removes_fn_holder :
  let g := User 7 (Some (UserFn 3)) in
  let e := fst (on "tap" g CtxThis (new_EventEmitter ["tap"%string])) in
  subscriptions "tap" e = [(g, CtxThis)] /\
  subscriptions "tap" (fst (off (Some "tap"%string) (Some (User 3 None)) e)) = [].
Proof. vm_compute. split; reflexivity. Qed.

(** ** Declared types *)

Lemma assign_primitive_lookup {V} k (v : V) (m : gmap string V) t :
  assign_primitive k v m !! t
  = if bool_decide (t = k)
       && (negb (String.eqb k "__proto__") || bool_decide (is_Some (m !! k)))
    then Some v else m !! t.
Proof.
  unfold assign_primitive.
  destruct (String.eqb k "__proto__"); cbn [andb negb orb].
  - destruct (bool_decide (is_Some (m !! k))) eqn:Hown; cbn [negb].
    + rewrite andb_true_r. destruct (bool_decide_reflect (t = k)) as [Ht|Ht].
      * subst. apply lookup_insert_eq.
      * apply lookup_insert_ne. congruence.
    + rewrite andb_false_r. reflexivity.
  - rewrite andb_true_r. destruct (bool_decide_reflect (t = k)) as [Ht|Ht].
    + subst. apply lookup_insert_eq.
    + apply lookup_insert_ne. congruence.
Qed.

Lemma registerType_cons n names e :
  registerType (n :: names) e
  = registerType names (set_eventTypes (assign_primitive n n (eventTypes e)) e).
Proof. reflexivity. Qed.

Lemma registerType_fields names e :
  events (registerType names e) = events e /\
  closures (registerType names e) = closures e /\
  console (registerType names e) = console e.
Proof.
  revert e. induction names as [|n names IH]; intros e; [repeat split|].
  rewrite registerType_cons.
  destruct (IH (set_eventTypes (assign_primitive n n (eventTypes e)) e)) as (H1 & H2 & H3).
  rewrite H1, H2, H3. repeat split.
Qed.

(** The property [t] of [eventTypes] after [registerType(names)]: a name of
    the list is stored under itself, except "__proto__", which is stored
    only where it is an own property already. *)
Lemma registerType_lookup names e t :
  eventTypes (registerType names e) !! t
  = if bool_decide (t ∈ names)
       && (negb (String.eqb t "__proto__") || bool_decide (is_Some (eventTypes e !! t)))
    then Some t else eventTypes e !! t.
Proof.
  revert e. induction names as [|n names IH]; intros e; [reflexivity|].
  rewrite registerType_cons, IH. cbn [eventTypes set_eventTypes].
  rewrite !assign_primitive_lookup.
  rewrite (bool_decide_ext _ _ (elem_of_cons names t n)), bool_decide_or.
  destruct (bool_decide_reflect (t = n)) as [Htn|Htn].
  - subst n. cbn [orb andb].
    destruct (negb (String.eqb t "__proto__")) eqn:Hp; cbn [orb].
    + rewrite !andb_true_r. destruct (bool_decide (t ∈ names)); reflexivity.
    + destruct (bool_decide (is_Some (eventTypes e !! t))) eqn:Hown; cbn [andb].
      * destruct (_ && _); reflexivity.
      * rewrite ?Hown, ?andb_false_r. reflexivity.
  - cbn [orb andb]. reflexivity.
Qed.

Lemma emitter_eta e :
  e = mkEmitter (events e) (eventTypes e) (closures e) (console e).
Proof. destruct e; reflexivity. Qed.

Lemma emitter_ext e e' :
  events e = events e' -> eventTypes e = eventTypes e' ->
  closures e = closures e' -> console e = console e' -> e = e'.
Proof.
  intros H1 H2 H3 H4. rewrite (emitter_eta e), (emitter_eta e'), H1, H2, H3, H4.
  reflexivity.
Qed.

Lemma isType_lookup t e : isType t e = bool_decide (eventTypes e !! t = Some t).
Proof.
  unfold isType. destruct (eventTypes e !! t) as [t'|].
  - destruct (String.eqb_spec t' t) as [->|Hne].
    + rewrite bool_decide_eq_true_2; reflexivity.
    + rewrite bool_decide_eq_false_2; [reflexivity|]. congruence.
  - rewrite bool_decide_eq_false_2; [reflexivity|]. discriminate.
Qed.

Lemma registerType_isType names t e :
  isType t (registerType names e)
  = bool_decide (t ∈ names)
    && (negb (String.eqb t "__proto__") || bool_decide (is_Some (eventTypes e !! t)))
    || isType t e.
Proof.
  rewrite !isType_lookup, registerType_lookup.
  destruct (_ && _); cbn [orb]; [|reflexivity].
  apply bool_decide_eq_true_2. reflexivity.
Qed.

(** X5. After [registerType(names)] a type is declared exactly when it was
    declared before or is one of [names], where the name "__proto__" counts
    only if [eventTypes] has an own property of that name already;
    subscriptions and diagnostics are not touched. *)
Theorem X5_registerType_declares names t e :
  isType t (registerType names e)
  = bool_decide (t ∈ names)
    && (negb (String.eqb t "__proto__") || bool_decide (is_Some (eventTypes e !! t)))
    || isType t e /\
  events (registerType names e) = events e /\
  console (registerType names e) = console e.
Proof.
  destruct (registerType_fields names e) as (He & _ & Hc).
  split; [apply registerType_isType | split; [exact He | exact Hc]].
Qed.

(** X6. [registerType] depends on the set of names only: lists with the
    same members, in any order and with any repetition, declare the same
    types; in particular declaring the same names again changes nothing. *)
Theorem X6_registerType_set names names' e :
  (forall t, t ∈ names <-> t ∈ names') ->
  registerType names e = registerType names' e /\
  registerType names (registerType names' e) = registerType names' e.
Proof.
  intros Hsame.
  destruct (registerType_fields names e) as (He & Hcl & Hc).
  destruct (registerType_fields names' e) as (He' & Hcl' & Hc').
  destruct (registerType_fields names (registerType names' e)) as (He2 & Hcl2 & Hc2).
  assert (Hdec : forall t, bool_decide (t ∈ names) = bool_decide (t ∈ names')).
  { intros t. apply bool_decide_ext, Hsame. }
  split; apply emitter_ext; try congruence.
  - apply map_eq. intros t. rewrite !registerType_lookup, Hdec. reflexivity.
  - apply map_eq. intros t. rewrite !registerType_lookup, Hdec.
    destruct (bool_decide (t ∈ names')); cbn [andb]; [|reflexivity].
    destruct (negb (String.eqb t "__proto__")); cbn [orb]; [reflexivity|].
    destruct (eventTypes e !! t) eqn:Hown.
    + rewrite !bool_decide_eq_true_2 by eauto. reflexivity.
    + rewrite !bool_decide_eq_false_2; [reflexivity | |];
        intros [? [=]].
Qed.

Lemma X6_registerType_set_witness :
  registerType ["tap"; "drag"; "tap"]%string (new_EventEmitter [])
  = registerType ["drag"; "tap"]%string (new_EventEmitter []).
Proof.
  apply (X6_registerType_set ["tap"; "drag"; "tap"]%string ["drag"; "tap"]%string
           (new_EventEmitter [])).
  intros t. rewrite !elem_of_cons, !elem_of_nil. tauto.
Defined.

Lemma new_EventEmitter_isType names t :
  isType t (new_EventEmitter names)
  = bool_decide (t ∈ names) && negb (String.eqb t "__proto__").
Proof.
  unfold new_EventEmitter. rewrite registerType_isType.
  unfold isType at 1. cbn [eventTypes]. rewrite lookup_empty, orb_false_r.
  rewrite (bool_decide_eq_false_2 (is_Some (@None string))) by (intros [? [=]]).
  rewrite orb_false_r. reflexivity.
Qed.

Lemma new_EventEmitter_dom names :
  dom (eventTypes (new_EventEmitter names))
  = list_to_set names ∖ {["__proto__"%string]}.
Proof.
  apply set_eq. intros t.
  rewrite elem_of_dom, elem_of_difference, elem_of_list_to_set, elem_of_singleton.
  unfold new_EventEmitter. rewrite registerType_lookup. cbn [eventTypes].
  rewrite lookup_empty. rewrite (bool_decide_eq_false_2 (is_Some (@None string))) by (intros [? [=]]).
  rewrite orb_false_r.
  destruct (bool_decide_reflect (t ∈ names)) as [Hin|Hnin]; cbn [andb].
  - destruct (String.eqb_spec t "__proto__") as [Hp|Hp]; cbn [negb].
    + split; [intros [? [=]] | tauto].
    + split; [tauto | eauto].
  - split; [intros [? [=]] | tauto].
Qed.

(** X7. A new emitter declares exactly the names it was given, but for
    "__proto__", and holds no subscription.  [trigger] applies nothing and
    leaves the emitter as it is but for one diagnostic when the type is not
    declared; it returns no value, or throws when the type is the name of a
    property the empty [events] object inherits. *)
Theorem X7_new_EventEmitter
    (body : nat -> Ctx -> list Value -> EventEmitter -> EventEmitter * Ending Value)
    names t args :
  let e := new_EventEmitter names in
  isType t e = bool_decide (t ∈ names) && negb (String.eqb t "__proto__") /\
  events e = ∅ /\
  console e = [] /\
  trigger body t args e
  = ((if bool_decide (t ∈ names) && negb (String.eqb t "__proto__") then e
      else warn (UnknownEventType t (list_to_set names ∖ {["__proto__"%string]})) e),
     match Object_prototype t with
     | Some _ => Throws TypeError
     | None => Returns VUndefined
     end,
     []).
Proof.
  cbn zeta.
  destruct (registerType_fields names (mkEmitter ∅ ∅ 0 [])) as (He & _ & Hc).
  split; [apply new_EventEmitter_isType|]. split; [exact He|]. split; [exact Hc|].
  rewrite trigger_empty by exact He.
  unfold hasType. rewrite new_EventEmitter_isType, new_EventEmitter_dom. reflexivity.
Qed.

Lemma off_console_declared type ofn e :
  isType type e = true -> console (fst (off (Some type) ofn e)) = console e.
Proof.
  intros Hdecl. unfold off.
  destruct (truthy_str (Some type)); destruct ofn as [f|]; cbn [negb andb bool_decide];
    try reflexivity; cbn zeta; rewrite (hasType_declared _ _ Hdecl).
  - destruct (events_at type e) as [evs|[[|n]|]|]; reflexivity.
  - destruct (_ && _); reflexivity.
Qed.

(** X8. With a declared type no operation reports anything: [on], [once]
    and [off] leave the diagnostics as they are, and [trigger] works on the
    emitter as it stands: it runs the loop over the stored array, returns
    no value when there is none, and throws when [events] inherits a
    property of that name. *)
Theorem X8_declared_type_is_silent
    (body : nat -> Ctx -> list Value -> EventEmitter -> EventEmitter * Ending Value)
    type fn ctx args ofn e :
  isType type e = true ->
  console (fst (on type fn ctx e)) = console e /\
  console (fst (once type fn ctx e)) = console e /\
  console (fst (off (Some type) ofn e)) = console e /\
  trigger body type args e
  = match events_at type e with
    | SUndefined => (e, Returns VUndefined, [])
    | SArray evs => dispatch body evs args e
    | SInherited _ => (e, Throws TypeError, [])
    end.
Proof.
  intros Hdecl. pose proof (hasType_declared type e Hdecl) as Hsame.
  split; [|split; [|split]].
  - rewrite on_console, Hsame. reflexivity.
  - rewrite once_console, !Hsame. reflexivity.
  - apply off_console_declared, Hdecl.
  - rewrite trigger_unfold, Hsame. reflexivity.
Qed.

Lemma X8_declared_type_is_silent_witness :
  let e := new_EventEmitter ["tap"%string] in
  console (fst (once "tap" (User 0 None) CtxThis e)) = [] /\
  console (fst (off (Some "tap"%string) None e)) = [].
Proof.
  cbn zeta.
  destruct (X8_declared_type_is_silent idle "tap" (User 0 None) CtxThis [] None
              (new_EventEmitter ["tap"%string]))
    as (_ & Honce & Hoff & _); [vm_compute; reflexivity|].
  rewrite Honce, Hoff. split; reflexivity.
Defined.

(** X9. [destroy()] leaves an emitter on which no type is declared and
    nothing is subscribed: every following [trigger] reports the type as
    unknown, with no declared type to suggest, and applies nothing; it
    returns no value, or throws when the type is the name of a property the
    empty [events] object inherits. *)
Theorem X9_destroy
    (body : nat -> Ctx -> list Value -> EventEmitter -> EventEmitter * Ending Value)
    type args e :
  isType type (destroy e) = false /\
  events (destroy e) = ∅ /\
  eventTypes (destroy e) = ∅ /\
  trigger body type args (destroy e)
  = (warn (UnknownEventType type ∅) (destroy e),
     match Object_prototype type with
     | Some _ => Throws TypeError
     | None => Returns VUndefined
     end,
     []).
Proof.
  assert (Hundecl : isType type (destroy e) = false) by reflexivity.
  split; [exact Hundecl|]. split; [reflexivity|]. split; [reflexivity|].
  rewrite trigger_empty by reflexivity.
  rewrite hasType_undeclared by exact Hundecl.
  cbn [destroy eventTypes set_eventTypes]. rewrite dom_empty_L. reflexivity.
Qed.

(** ** Subscribing and unsubscribing *)

(** X10. Subscribing and then unsubscribing, for a non-empty type on a bus
    that can hold subscriptions for it.  [on] does not look for duplicates,
    so [on(type, h)] twice stores [h] twice, and one [off(type, h)] removes
    both entries.  [off(type, h)] also removes the adapter that
    [once(type, h)] stored.  In both cases what remains is the earlier list
    without the entries that are [h] or hold [h] in their property [fn]; it
    is the earlier list itself when there was no such entry. *)
Theorem X10_subscribe_unsubscribe type h c c' e :
  type <> EmptyString ->
  accepts type e = true ->
  let e2 := fst (on type h c' (fst (on type h c e))) in
  let e1 := fst (once type h c e) in
  snd (on type h c e) = Returns tt /\
  snd (on type h c' (fst (on type h c e))) = Returns tt /\
  snd (once type h c e) = Returns tt /\
  subscriptions type e2 = subscriptions type e ++ [(h, c); (h, c')] /\
  subscriptions type (fst (off (Some type) (Some h) e2)) = kept h (subscriptions type e) /\
  subscriptions type (fst (off (Some type) (Some h) e1)) = kept h (subscriptions type e) /\
  (Forall (fun s => off_matches h s = false) (subscriptions type e) ->
   kept h (subscriptions type e) = subscriptions type e).
Proof.
  intros Hne Hacc. cbn zeta.
  pose proof (on_accepts_after type h c e Hacc) as Hacc1.
  split; [rewrite on_accepted by exact Hacc; reflexivity|].
  split; [rewrite (on_accepted type h c') by exact Hacc1; reflexivity|].
  split; [apply once_accepted, Hacc|].
  split; [|split; [|split]].
  - rewrite !on_subscriptions, <- app_assoc by assumption. reflexivity.
  - rewrite off_handler_subscriptions by exact Hne.
    rewrite !on_subscriptions, !kept_app by assumption.
    rewrite !kept_match by apply off_matches_same.
    rewrite !app_nil_r. reflexivity.
  - rewrite off_handler_subscriptions by exact Hne.
    rewrite once_subscriptions, kept_app by exact Hacc.
    rewrite kept_match by apply off_matches_adapter.
    apply app_nil_r.
  - apply kept_all.
Qed.

Lemma X10_subscribe_unsubscribe_witness :
  let e := fst (on "tap" (User 0 None) CtxThis (new_EventEmitter ["tap"%string])) in
  subscriptions "tap"
    (fst (off (Some "tap"%string) (Some (User 1 None))
            (fst (once "tap" (User 1 None) CtxThis e))))
  = [(User 0 None, CtxThis)].
Proof.
  cbn zeta.
  destruct (X10_subscribe_unsubscribe "tap" (User 1 None) CtxThis CtxThis
              (fst (on "tap" (User 0 None) CtxThis (new_EventEmitter ["tap"%string]))))
    as (_ & _ & _ & _ & _ & Honce & Hsame); [discriminate | reflexivity |].
  rewrite Honce, Hsame; [vm_compute; reflexivity|].
  vm_compute. repeat constructor.
Defined.

(** X11. [trigger] itself changes nothing but the diagnostics: when the
    subscriptions of [type] are caller-supplied functions whose bodies
    leave the emitter alone, the emitter after the pass is the one
    [hasType] left, with the same subscriptions as before. *)
Theorem X11_trigger_passive
    (body : nat -> Ctx -> list Value -> EventEmitter -> EventEmitter * Ending Value)
    type args e :
  Forall (fun s => is_user s = true) (subscriptions type e) ->
  (forall id p c, In (User id p, c) (subscriptions type e) ->
     forall a e0, fst (body id c a e0) = e0) ->
  fst (fst (trigger body type args e)) = hasType type e /\
  events (fst (fst (trigger body type args e))) = events e.
Proof.
  intros Huser Hpassive.
  assert (Hbus : fst (fst (trigger body type args e)) = hasType type e).
  { rewrite trigger_unfold. unfold subscriptions in Huser, Hpassive.
    unfold events_at. destruct (events e !! type) as [evs|].
    - apply dispatch_passive; assumption.
    - destruct (Object_prototype type); reflexivity. }
  split; [exact Hbus|]. rewrite Hbus. apply hasType_events.
Qed.

Lemma X11_trigger_passive_witness :
  let e := fst (subscribe_all "tap" [(User 0 None, CtxThis); (User 1 None, CtxObj 2)]
                  (new_EventEmitter ["tap"%string])) in
  fst (fst (trigger answer "tap" [VNum 1] e)) = e.
Proof.
  cbn zeta.
  destruct (X11_trigger_passive answer "tap" [VNum 1]
              (fst (subscribe_all "tap" [(User 0 None, CtxThis); (User 1 None, CtxObj 2)]
                      (new_EventEmitter ["tap"%string])))) as [Hbus _].
  - vm_compute. repeat constructor.
  - intros id p c _ a e0. reflexivity.
  - rewrite Hbus. vm_compute. reflexivity.
Defined.

Lemma invocations_adapter_step id p uid type c ctx args ret v rest :
  invocations (User id p)
    (calls (mkFired (Magic uid type (User id p) c, ctx) args ret
                    [mkCall (User id p) c args v] :: rest))
  = S (invocations (User id p) (calls rest)).
Proof.
  unfold invocations, calls. cbn [flat_map applied fired_sub fired_args fired_ret
    fired_inner fst snd app map call_fn].
  rewrite !filter_cons. rewrite decide_False by (cbn; discriminate).
  rewrite decide_True by (cbn; apply Nat.eqb_refl). reflexivity.
Qed.

Lemma kept_other_adapter k1 k2 type id p c1 c2 :
  k2 <> k1 ->
  kept (Magic k1 type (User id p) c1)
    [(Magic k1 type (User id p) c1, CtxThis); (Magic k2 type (User id p) c2, CtxThis)]
  = [(Magic k2 type (User id p) c2, CtxThis)].
Proof.
  intros Hk.
  change [(Magic k1 type (User id p) c1, CtxThis); (Magic k2 type (User id p) c2, CtxThis)]
    with ([(Magic k1 type (User id p) c1, CtxThis)]
          ++ [(Magic k2 type (User id p) c2, CtxThis)]).
  rewrite kept_app, kept_self. cbn [app]. apply kept_all.
  repeat constructor. unfold off_matches, fn_same. cbn [fst fn_id fn_fn fnid_same].
  rewrite orb_false_r. apply Nat.eqb_neq. exact Hk.
Qed.

(** The pass over two adapters around the same function of the caller,
    the only subscriptions of a non-empty type. *)
Lemma two_adapters_pass
    (body : nat -> Ctx -> list Value -> EventEmitter -> EventEmitter * Ending Value)
    type id p k1 k2 c1 c2 args e :
  type <> EmptyString ->
  k2 <> k1 ->
  events e !! type
  = Some [(Magic k1 type (User id p) c1, CtxThis); (Magic k2 type (User id p) c2, CtxThis)] ->
  (forall c a e0, events (fst (body id c a e0)) !! type = events e0 !! type) ->
  let r := trigger body type args e in
  (invocations (User id p) (calls (snd r)) = 2 /\
   subscriptions type (fst (fst r)) = [])
  \/
  (snd (fst r) <> Returns VUndefined /\
   invocations (User id p) (calls (snd r)) = 1 /\
   subscriptions type (fst (fst r)) = [(Magic k2 type (User id p) c2, CtxThis)]).
Proof.
  intros Hne Hk Hev Hbody. cbn zeta.
  pose proof (kept_other_adapter k1 k2 type id p c1 c2 Hk) as Hkeep.
  rewrite trigger_unfold, (events_at_own _ _ _ Hev), dispatch_cons. cbn zeta.
  rewrite apply_Magic.
  assert (Hacc : accepts type (hasType type e) = true).
  { apply accepts_own. rewrite hasType_events, Hev. eauto. }
  rewrite (off_handler_accepted _ _ _ Hne Hacc).
  rewrite !hasType_events, Hev, Hkeep. cbn zeta. rewrite apply_User. cbn [fst snd].
  match goal with |- context [body id c1 args ?e3] =>
    pose proof (Hbody c1 args e3) as Hev4; set (b1 := body id c1 args e3) in * end.
  cbn [events set_events] in Hev4. rewrite lookup_insert_eq in Hev4.
  destruct b1 as [e4 [v1|err|]]; cbn [fst snd only_true] in *.
  - destruct (is_true v1) eqn:Hv1; cbn [is_true fst snd].
    + right. apply is_true_eq in Hv1. subst v1. cbn [is_true fst snd].
      split; [discriminate|]. split.
      * rewrite invocations_adapter_step. reflexivity.
      * unfold subscriptions. rewrite Hev4. reflexivity.
    + left. cbn [is_true]. rewrite dispatch_cons. cbn zeta. rewrite apply_Magic.
      assert (Hacc4 : accepts type e4 = true).
      { apply accepts_own. rewrite Hev4. eauto. }
      rewrite (off_handler_accepted _ _ _ Hne Hacc4), Hev4, kept_self.
      cbn zeta. rewrite apply_User. cbn [fst snd].
      match goal with |- context [body id c2 args ?e5] =>
        pose proof (Hbody c2 args e5) as Hev6; set (b2 := body id c2 args e5) in * end.
      cbn [events set_events] in Hev6. rewrite lookup_insert_eq in Hev6.
      destruct b2 as [e6 [v2|err|]]; cbn [fst snd only_true] in *.
      * destruct (is_true v2) eqn:Hv2.
        -- apply is_true_eq in Hv2. subst v2. cbn [is_true fst snd].
           split; [rewrite !invocations_adapter_step; reflexivity|].
           unfold subscriptions. rewrite Hev6. reflexivity.
        -- cbn [is_true dispatch fst snd].
           split; [rewrite !invocations_adapter_step; reflexivity|].
           unfold subscriptions. rewrite Hev6. reflexivity.
      * split; [rewrite !invocations_adapter_step; reflexivity|].
        unfold subscriptions. rewrite Hev6. reflexivity.
      * split; [rewrite !invocations_adapter_step; reflexivity|].
        unfold subscriptions. rewrite Hev6. reflexivity.
  - right. split; [discriminate|]. split.
    + rewrite invocations_adapter_step. reflexivity.
    + unfold subscriptions. rewrite Hev4. reflexivity.
  - right. split; [discriminate|]. split.
    + rewrite invocations_adapter_step. reflexivity.
    + unfold subscriptions. rewrite Hev4. reflexivity.
Qed.

(** X12. Two [once(type, h)] registrations are independent of each other:
    each builds an adapter of its own, and an adapter that unsubscribes
    itself leaves the other one stored.  On a bus that can hold
    subscriptions for the non-empty [type] and has none yet, and for a
    handler that leaves the subscriptions of [type] alone, the next
    [trigger(type)] either applies [h] twice and leaves no subscription,
    or, when the first application returns [true] or throws, ends after
    that one application and leaves the second adapter subscribed. *)
Theorem X12_once_twice
    (body : nat -> Ctx -> list Value -> EventEmitter -> EventEmitter * Ending Value)
    type id p c1 c2 args e :
  type <> EmptyString ->
  accepts type e = true ->
  subscriptions type e = [] ->
  (forall c a e0, events (fst (body id c a e0)) !! type = events e0 !! type) ->
  let e2 := fst (once type (User id p) c2 (fst (once type (User id p) c1 e))) in
  let r := trigger body type args e2 in
  subscriptions type e2
  = [(Magic (closures e) type (User id p) c1, CtxThis);
     (Magic (S (closures e)) type (User id p) c2, CtxThis)] /\
  ((invocations (User id p) (calls (snd r)) = 2 /\
    subscriptions type (fst (fst r)) = [])
   \/
   (snd (fst r) <> Returns VUndefined /\
    invocations (User id p) (calls (snd r)) = 1 /\
    subscriptions type (fst (fst r))
    = [(Magic (S (closures e)) type (User id p) c2, CtxThis)])).
Proof.
  intros Hne Hacc Hnone Hbody. cbn zeta.
  destruct (once_accepted type (User id p) c1 e Hacc) as (_ & Hev1 & Hcl1 & _).
  assert (Hacc1 : accepts type (fst (once type (User id p) c1 e)) = true).
  { apply accepts_own. rewrite Hev1. eauto. }
  destruct (once_accepted type (User id p) c2 _ Hacc1) as (_ & Hev2 & _ & _).
  unfold subscriptions at 1 in Hev2. rewrite Hev1, Hcl1, Hnone in Hev2.
  cbn [default app] in Hev2.
  split; [unfold subscriptions; rewrite Hev2; reflexivity|].
  apply (two_adapters_pass body type id p (closures e) (S (closures e)) c1 c2);
    [exact Hne | lia | exact Hev2 | exact Hbody].
Qed.

Lemma X12_once_twice_witness :
  let r := trigger idle "tap" []
             (fst (once "tap" (User 0 None) CtxThis
                     (fst (once "tap" (User 0 None) CtxThis
                             (new_EventEmitter ["tap"%string]))))) in
  invocations (User 0 None) (calls (snd r)) = 2 /\ subscriptions "tap" (fst (fst r)) = [].
Proof.
  cbn zeta.
  destruct (X12_once_twice idle "tap" 0 None CtxThis CtxThis []
              (new_EventEmitter ["tap"%string])) as (_ & [Htwice|(Htrue & _)]).
  - discriminate.
  - reflexivity.
  - vm_compute. reflexivity.
  - intros c a e0. reflexivity.
  - exact Htwice.
  - exfalso. apply Htrue. vm_compute. reflexivity.
Defined.

(** * Further properties of the registry and the host *)

(** ** The sort *)

Lemma sort_insert_perm {A} (comparefn : A -> A -> Z) x (l : list A) :
  Permutation (x :: l) (sort_insert comparefn x l).
Proof.
  induction l as [|y l IH]; cbn [sort_insert]; [reflexivity|].
  destruct (comparefn x y <=? 0)%Z; [reflexivity|].
  rewrite perm_swap. apply perm_skip, IH.
Qed.

Lemma sort_perm {A} (comparefn : A -> A -> Z) (l : list A) :
  Permutation l (sort comparefn l).
Proof.
  induction l as [|x l IH]; cbn [sort]; [reflexivity|].
  rewrite <- sort_insert_perm. apply perm_skip, IH.
Qed.

Lemma sort_insert_sorted x l :
  StronglySorted order_le l ->
  StronglySorted order_le (sort_insert compare_items x l).
Proof.
  induction 1 as [|y l Hsorted IH Hy]; cbn [sort_insert].
  - repeat constructor.
  - unfold compare_items at 1.
    destruct (Z.leb_spec (order_key (applyOrder x) - order_key (applyOrder y)) 0)
      as [Hle|Hgt].
    + constructor; [constructor; assumption|].
      constructor; [unfold order_le; lia|].
      eapply Forall_impl; [exact Hy|]. unfold order_le. intros z Hz. lia.
    + constructor; [exact IH|].
      rewrite <- (sort_insert_perm compare_items x l).
      constructor; [unfold order_le; lia | exact Hy].
Qed.

(** X13. The sort that [applyPlugins] runs on the shared list neither adds
    nor drops a descriptor, and leaves the list ordered by key: [Pre]
    before untagged before [Post]. *)
Theorem X13_sort_sorted_permutation (l : list PluginItem) :
  Permutation l (sort compare_items l) /\
  StronglySorted order_le (sort compare_items l).
Proof.
  split; [apply sort_perm|].
  induction l as [|x l IH]; cbn [sort]; [constructor|].
  apply sort_insert_sorted, IH.
Qed.

Lemma with_order_app o l1 l2 :
  with_order o (l1 ++ l2) = with_order o l1 ++ with_order o l2.
Proof. unfold with_order. apply List.filter_app. Qed.

Lemma with_order_other o o' l :
  order_key o <> order_key o' -> with_order o (with_order o' l) = [].
Proof.
  intros Hne. unfold with_order. induction l as [|x l IH]; [reflexivity|].
  cbn [List.filter].
  destruct (Z.eqb_spec (order_key (applyOrder x)) (order_key o')) as [Heq|_];
    [|exact IH].
  cbn [List.filter]. rewrite Heq.
  destruct (Z.eqb_spec (order_key o') (order_key o)) as [Heq'|_]; [|exact IH].
  congruence.
Qed.

Lemma with_order_same o l : with_order o (with_order o l) = with_order o l.
Proof.
  unfold with_order. induction l as [|x l IH]; [reflexivity|].
  cbn [List.filter].
  destruct (order_key (applyOrder x) =? order_key o)%Z eqn:Heq; [|exact IH].
  cbn [List.filter]. rewrite Heq, IH. reflexivity.
Qed.

Lemma with_order_sort o l : with_order o (sort compare_items l) = with_order o l.
Proof.
  rewrite sort_by_order, !with_order_app.
  destruct o as [[|]|].
  - rewrite with_order_same, !with_order_other by (cbn; lia).
    rewrite !app_nil_r. reflexivity.
  - rewrite with_order_same, !with_order_other by (cbn; lia). reflexivity.
  - rewrite with_order_same, !with_order_other by (cbn; lia).
    rewrite app_nil_r. reflexivity.
Qed.

Lemma sort_after_sort l l' :
  sort compare_items (sort compare_items l ++ l') = sort compare_items (l ++ l').
Proof.
  rewrite (sort_by_order (sort compare_items l ++ l')), (sort_by_order (l ++ l')).
  rewrite !with_order_app, !with_order_sort. reflexivity.
Qed.

Lemma sort_sort l : sort compare_items (sort compare_items l) = sort compare_items l.
Proof.
  pose proof (sort_after_sort l []) as Hs. rewrite !app_nil_r in Hs. exact Hs.
Qed.

Lemma installed_sort c l :
  existsb (fun plugin => ctor_same c (ctor plugin)) (sort compare_items l)
  = existsb (fun plugin => ctor_same c (ctor plugin)) l.
Proof.
  apply eq_true_iff_eq. rewrite !existsb_exists.
  split; intros (it & Hin & Hc); exists it; (split; [|exact Hc]).
  - apply (proj1 (sort_In _ _)), Hin.
  - apply (proj2 (sort_In _ _)), Hin.
Qed.

Lemma new_CoreConstructor_registry
    (construct : PluginCtor -> gmap string Value -> EventEmitter * EventEmitter ->
                 EventEmitter * EventEmitter * Outcome)
    opts R :
  fst (new_CoreConstructor construct opts R)
  = mkRegistry (sort compare_items (reg_plugins R)) (reg_pluginsMap R).
Proof.
  unfold new_CoreConstructor, applyPlugins.
  destruct (merge opts new_OptionsConstructor); reflexivity.
Qed.

Lemma new_CoreConstructor_sorted
    (construct : PluginCtor -> gmap string Value -> EventEmitter * EventEmitter ->
                 EventEmitter * EventEmitter * Outcome)
    opts l l' m :
  sort compare_items l = sort compare_items l' ->
  new_CoreConstructor construct opts (mkRegistry l m)
  = new_CoreConstructor construct opts (mkRegistry l' m).
Proof.
  intros Hs. unfold new_CoreConstructor, applyPlugins. cbn [reg_plugins reg_pluginsMap].
  rewrite Hs. reflexivity.
Qed.

(** X14. An earlier host construction does not change what a later one
    does.  The sort is stable and sorts by a fixed key, so sorting the
    list it has already sorted, also with plugins registered in between,
    gives the list that sorting the unsorted one gives: the registry left
    behind, the constructors called and the host built are the same. *)
Theorem X14_construction_history
    (construct construct' :
       PluginCtor -> gmap string Value -> EventEmitter * EventEmitter ->
       EventEmitter * EventEmitter * Outcome)
    opts opts' d R :
  let R1 := fst (new_CoreConstructor construct' opts' R) in
  new_CoreConstructor construct opts R1 = new_CoreConstructor construct opts R /\
  new_CoreConstructor construct opts (fst (use d R1))
  = new_CoreConstructor construct opts (fst (use d R)).
Proof.
  cbn zeta. rewrite new_CoreConstructor_registry. destruct R as [l m]. split.
  - apply new_CoreConstructor_sorted, sort_sort.
  - unfold use. cbn zeta. cbn [reg_plugins reg_pluginsMap]. rewrite installed_sort.
    destruct (existsb _ l); cbn [fst reg_plugins reg_pluginsMap].
    + apply new_CoreConstructor_sorted, sort_sort.
    + apply new_CoreConstructor_sorted, sort_after_sort.
Qed.

(** ** Invariants of the registry *)

Lemma not_installed c l :
  existsb (fun plugin => ctor_same c (ctor plugin)) l = false ->
  ctor_ref c ∉ map (fun it => ctor_ref (ctor it)) l.
Proof.
  intros Hex Hin. apply list_elem_of_In, in_map_iff in Hin as (it & Href & Hit).
  assert (Htrue : existsb (fun plugin => ctor_same c (ctor plugin)) l = true).
  { apply existsb_exists. exists it. split; [exact Hit|].
    unfold ctor_same. rewrite Href. apply Nat.eqb_refl. }
  congruence.
Qed.

Lemma registry_ok_use c R : registry_ok R -> registry_ok (fst (use c R)).
Proof.
  intros (Hnodup & Hitems & Hmap). unfold use. cbn zeta.
  destruct (existsb _ _) eqn:Hinst; cbn [fst]; [repeat split; assumption|].
  unfold registry_ok. cbn [reg_plugins reg_pluginsMap]. split; [|split].
  - rewrite map_app. apply NoDup_app. split; [exact Hnodup|]. split.
    + intros r Hr Hr'. cbn [map ctor] in Hr'.
      apply list_elem_of_singleton in Hr'. subst r.
      apply (not_installed c _ Hinst), Hr.
    + cbn [map]. apply NoDup_singleton.
  - apply Forall_app. split; [exact Hitems|]. repeat constructor.
  - intros x. rewrite map_app. cbn [map name].
    rewrite assign_primitive_lookup, !Hmap.
    rewrite (bool_decide_ext _ _ (elem_of_app _ _ x)), bool_decide_or.
    rewrite (bool_decide_ext _ _ (list_elem_of_singleton x (pluginName c))).
    destruct (bool_decide_reflect (x = pluginName c)) as [Hx|Hx].
    + subst x. rewrite orb_true_r. cbn [andb].
      destruct (negb (String.eqb (pluginName c) "__proto__")); cbn [orb andb].
      * reflexivity.
      * rewrite andb_false_r.
        rewrite bool_decide_eq_false_2; [reflexivity | intros [? [=]]].
    + rewrite orb_false_r. reflexivity.
Qed.

Lemma registry_ok_perm l R :
  Permutation (reg_plugins R) l -> registry_ok R ->
  registry_ok (mkRegistry l (reg_pluginsMap R)).
Proof.
  intros Hperm (Hnodup & Hitems & Hmap). cbn [registry_ok reg_plugins reg_pluginsMap].
  unfold registry_ok. cbn [reg_plugins reg_pluginsMap]. split; [|split].
  - rewrite <- Hperm. exact Hnodup.
  - rewrite <- Hperm. exact Hitems.
  - intros x. rewrite Hmap.
    apply (f_equal (fun b : bool => if b && negb (String.eqb x "__proto__")
                                    then Some true else None)).
    apply bool_decide_ext. rewrite Hperm. reflexivity.
Qed.

(** X15. Whatever sequence of [use] calls and host constructions a program
    runs, starting from the empty registry: no constructor is listed twice
    in the shared list, every descriptor carries the [pluginName] and
    [applyOrder] of its constructor, and [pluginsMap] holds [true] at
    exactly the names that are listed, except "__proto__", at which it
    never holds an own property. *)
Theorem X15_registry_invariant R : reachable R -> registry_ok R.
Proof.
  induction 1 as [|c R _ IH|construct opts R _ IH].
  - split; [constructor|]. split; [constructor|]. intros x.
    cbn [reg_plugins reg_pluginsMap]. rewrite lookup_empty. reflexivity.
  - apply registry_ok_use, IH.
  - rewrite new_CoreConstructor_registry.
    apply registry_ok_perm; [apply sort_perm | exact IH].
Qed.

Lemma X15_registry_invariant_witness :
  let R := fst (new_CoreConstructor inert None
                  (fst (use (mkCtor 2 "b" (Some Pre))
                          (fst (use (mkCtor 1 "a" None) (mkRegistry [] ∅)))))) in
  map name (reg_plugins R) = ["b"; "a"]%string /\ registry_ok R.
Proof.
  cbn zeta. split; [vm_compute; reflexivity|].
  apply X15_registry_invariant. apply reachable_new.
  apply reachable_use, reachable_use, reachable_init.
Defined.

(** A plugin named "__proto__" is listed, but [pluginsMap] does not mark
    it. *)
Example use_proto_name :
  let R := fst (use (mkCtor 1 "__proto__" None) (mkRegistry [] ∅)) in
  map name (reg_plugins R) = ["__proto__"%string] /\ reg_pluginsMap R = ∅.
Proof. vm_compute. split; reflexivity. Qed.

(** ** Activation *)

Lemma store_plugin_proto n v this :
  plugins this !! "__proto__"%string = None ->
  plugins (store_plugin n v this) !! "__proto__"%string = None.
Proof.
  intros Hnone. unfold store_plugin.
  destruct (String.eqb_spec n "__proto__") as [->|Hn]; cbn [andb].
  - rewrite bool_decide_eq_false_2 by (rewrite Hnone; intros [? [=]]). cbn [negb].
    destruct (object_or_null v); exact Hnone.
  - cbn [plugins]. rewrite lookup_insert_ne by exact Hn. exact Hnone.
Qed.

Lemma store_plugin_dom n v this :
  plugins this !! "__proto__"%string = None ->
  dom (plugins (store_plugin n v this))
  = list_to_set (List.filter (fun x => negb (String.eqb x "__proto__")) [n])
    ∪ dom (plugins this).
Proof.
  intros Hnone. unfold store_plugin. cbn [List.filter].
  destruct (String.eqb_spec n "__proto__") as [->|Hn]; cbn [andb negb].
  - rewrite bool_decide_eq_false_2 by (rewrite Hnone; intros [? [=]]). cbn [negb].
    cbn [list_to_set]. rewrite (left_id_L ∅ (∪)).
    destruct (object_or_null v); reflexivity.
  - cbn [plugins]. rewrite dom_insert_L. cbn [list_to_set].
    rewrite (right_id_L ∅ (∪)). reflexivity.
Qed.

Section ActivationFacts.

Variable construct :
  PluginCtor -> gmap string Value -> EventEmitter * EventEmitter ->
  EventEmitter * EventEmitter * Outcome.

Lemma forEach_apply_called_enabled items this :
  Forall (fun it => enabled (options this) it = true)
         (snd (forEach_apply construct items this)).
Proof.
  destruct (forEach_apply_log construct items this) as (rest & Hlog & _).
  apply List.Forall_forall. intros it Hit.
  assert (Hin : In it (List.filter (enabled (options this)) items)).
  { rewrite Hlog. apply in_or_app. left. exact Hit. }
  apply filter_In in Hin. tauto.
Qed.

Lemma forEach_apply_ended_called items this :
  snd (fst (forEach_apply construct items this)) <> Normal ->
  snd (forEach_apply construct items this) <> [].
Proof.
  intros Hend. apply forEach_apply_ended in Hend as (item & _ & Hlast & _).
  intros Hnil. rewrite Hnil in Hlast. discriminate Hlast.
Qed.

Lemma returned_cons c item log :
  (c <> Normal -> log <> []) ->
  returned c (item :: log) = item :: returned c log.
Proof.
  destruct c as [|err|]; [reflexivity| |]; intros Hlog; cbn [returned];
    (destruct log; [exfalso; apply Hlog; [discriminate | reflexivity] | reflexivity]).
Qed.

Lemma returned_In c log it : In it (returned c log) -> In it log.
Proof.
  destruct c; cbn [returned]; [tauto | |];
    (induction log as [|a l IHl]; [contradiction|];
     destruct l; [contradiction|]; intros [->|Hit]; [left; reflexivity|];
     right; apply IHl, Hit).
Qed.

(** The own properties of the plugin map after the visit: those it had,
    and the names of the items whose constructor returned, but for
    "__proto__". *)
Lemma forEach_apply_dom items this :
  plugins this !! "__proto__"%string = None ->
  let r := forEach_apply construct items this in
  dom (plugins (fst (fst r)))
  = list_to_set (List.filter (fun x => negb (String.eqb x "__proto__"))
                   (map name (returned (snd (fst r)) (snd r))))
    ∪ dom (plugins this).
Proof.
  cbn zeta. revert this. induction items as [|item items IH]; intros this Hnone.
  - cbn [forEach_apply fst snd returned map List.filter list_to_set].
    symmetry. apply (left_id_L ∅ (∪)).
  - rewrite forEach_apply_cons. destruct (enabled _ _); [|apply IH, Hnone].
    cbn zeta. destruct (snd (construct _ _ _)) as [instance|err|].
    + cbn [fst snd]. rewrite IH by (apply store_plugin_proto; exact Hnone).
      rewrite store_plugin_dom by exact Hnone. cbn [plugins with_buses].
      rewrite returned_cons by apply forEach_apply_ended_called.
      cbn [map List.filter].
      destruct (negb (String.eqb (name item) "__proto__")).
      * cbn [list_to_set]. rewrite (right_id_L ∅ (∪)).
        rewrite (assoc_L (∪) (list_to_set _) {[name item]} (dom _)).
        f_equal. apply (comm_L (∪)).
      * cbn [list_to_set]. rewrite (left_id_L ∅ (∪)). reflexivity.
    + cbn [fst snd returned removelast map List.filter list_to_set plugins with_buses].
      symmetry. apply (left_id_L ∅ (∪)).
    + cbn [fst snd returned removelast map List.filter list_to_set plugins with_buses].
      symmetry. apply (left_id_L ∅ (∪)).
Qed.

End ActivationFacts.

(** X16. A registered plugin whose option is not truthy is not activated:
    its constructor is not called and the host's plugin map has no entry
    under its name.  The option is the own property of the merged options
    (absent, [false], [0], the empty string, [null]) or, when there is
    none, the property the options object inherits under that name, which
    is truthy. *)
Theorem X16_disabled_plugin
    (construct : PluginCtor -> gmap string Value -> EventEmitter * EventEmitter ->
                 EventEmitter * EventEmitter * Outcome)
    opts o R x :
  merge opts new_OptionsConstructor = Some o ->
  option_truthy o x = false ->
  let r := new_CoreConstructor construct opts R in
  Forall (fun it => name it <> x) (snd (snd r)) /\
  plugins (fst (fst (snd r))) !! x = None.
Proof.
  intros Hmerge Hfalsy. cbn zeta. rewrite (new_CoreConstructor_merged _ _ _ _ Hmerge).
  unfold applyPlugins. cbn [fst snd].
  set (sorted := sort compare_items (reg_plugins R)).
  assert (Hcalled : Forall (fun it => name it <> x)
                      (snd (forEach_apply construct sorted (new_host o)))).
  { eapply Forall_impl; [apply forEach_apply_called_enabled|].
    intros it Hen Heq. cbn beta in Hen.
    rewrite enabled_unfold in Hen. cbn [options new_host] in Hen.
    rewrite Heq, Hfalsy in Hen. discriminate Hen. }
  split; [exact Hcalled|].
  apply not_elem_of_dom. rewrite forEach_apply_dom by reflexivity. cbn [plugins new_host].
  rewrite dom_empty_L, elem_of_union, elem_of_list_to_set.
  intros [Hin|Hin]; [|exact (not_elem_of_empty _ Hin)].
  apply list_elem_of_In, filter_In in Hin as [Hin _].
  apply in_map_iff in Hin as (it & Heq & Hit).
  rewrite List.Forall_forall in Hcalled. apply (Hcalled it); [|exact Heq].
  apply returned_In in Hit. exact Hit.
Qed.

Lemma X16_disabled_plugin_witness :
  let R := fst (use (mkCtor 1 "startX" None)
                  (fst (use (mkCtor 2 "refresh" None) (mkRegistry [] ∅)))) in
  let opts : gmap string Value := <["refresh"%string := VBool true]> ∅ in
  let r := new_CoreConstructor inert (Some opts) R in
  map name (snd (snd r)) = ["refresh"%string] /\
  plugins (fst (fst (snd r))) !! "startX"%string = None.
Proof.
  cbn zeta.
  destruct (X16_disabled_plugin inert
              (Some (<["refresh"%string := VBool true]> (∅ : gmap string Value)))
              (<["refresh"%string := VBool true]> (∅ : gmap string Value)
               ∪ new_OptionsConstructor)
              (fst (use (mkCtor 1 "startX" None)
                      (fst (use (mkCtor 2 "refresh" None) (mkRegistry [] ∅)))))
              "startX"%string) as [_ Hmap];
    [reflexivity | vm_compute; reflexivity |].
  split; [vm_compute; reflexivity | exact Hmap].
Defined.

(** A registered plugin named after a property the options object
    inherits is activated whatever the caller's options say, unless they
    hold a falsy value under that name. *)
Example inherited_name_is_enabled :
  let R := fst (use (mkCtor 2 "toString" None)
                  (fst (use (mkCtor 1 "merge" None) (mkRegistry [] ∅)))) in
  map name (snd (snd (new_CoreConstructor inert None R)))
  = ["merge"%string; "toString"%string] /\
  map name (snd (snd (new_CoreConstructor inert
                        (Some (<["merge"%string := VBool false]> ∅)) R)))
  = ["toString"%string].
Proof. vm_compute. split; reflexivity. Qed.

(** X17. The names under which the host's plugin map holds an instance
    are the names of the plugins whose constructor was called and returned
    (all the plugins called when the construction completes, all but the
    last one otherwise), except "__proto__": an instance stored under that
    name becomes the prototype of the map. *)
Theorem X17_plugin_map_domain
    (construct : PluginCtor -> gmap string Value -> EventEmitter * EventEmitter ->
                 EventEmitter * EventEmitter * Outcome)
    opts R :
  let r := new_CoreConstructor construct opts R in
  dom (plugins (fst (fst (snd r))))
  = list_to_set (List.filter (fun x => negb (String.eqb x "__proto__"))
                   (map name (returned (snd (fst (snd r))) (snd (snd r))))).
Proof.
  cbn zeta. unfold new_CoreConstructor, applyPlugins.
  destruct (merge opts new_OptionsConstructor) as [o|]; cbn [fst snd].
  - rewrite forEach_apply_dom by reflexivity. cbn [plugins new_host].
    rewrite dom_empty_L. apply (right_id_L ∅ (∪)).
  - cbn [plugins new_host returned removelast map List.filter list_to_set].
    apply dom_empty_L.
Qed.

(** A plugin named "__proto__" is always enabled; the object its
    constructor returns becomes the prototype of the plugin map, which
    gets no own property. *)
Example proto_plugin :
  let R := fst (use (mkCtor 1 "__proto__" None) (mkRegistry [] ∅)) in
  let r := new_CoreConstructor inert None R in
  map name (snd (snd r)) = ["__proto__"%string] /\
  plugins (fst (fst (snd r))) = ∅ /\
  plugins_proto (fst (fst (snd r))) = Some (VObj 1).
Proof. vm_compute. repeat split; reflexivity. Qed.

Lemma defaults_lookup k v :
  new_OptionsConstructor !! k = Some v -> v = VNum 0 /\ inherited_by_options k = false.
Proof.
  unfold new_OptionsConstructor.
  destruct (decide (k = "startX"%string)) as [->|Hx].
  { rewrite lookup_insert_eq. intros [= <-]. split; reflexivity. }
  rewrite lookup_insert_ne by congruence.
  destruct (decide (k = "startY"%string)) as [->|Hy].
  { rewrite lookup_insert_eq. intros [= <-]. split; reflexivity. }
  rewrite lookup_insert_ne by congruence. rewrite lookup_empty. discriminate.
Qed.

Lemma defaults_truthy k :
  option_truthy new_OptionsConstructor k = inherited_by_options k.
Proof.
  unfold option_truthy. destruct (new_OptionsConstructor !! k) as [v|] eqn:Hk;
    [|reflexivity].
  apply defaults_lookup in Hk as [-> Hk]. rewrite Hk. reflexivity.
Qed.

Lemma union_defaults_truthy (c : gmap string Value) k :
  option_truthy (c ∪ new_OptionsConstructor) k
  = match c !! k with
    | Some v => truthy v
    | None => inherited_by_options k
    end.
Proof.
  unfold option_truthy at 1. rewrite lookup_union.
  destruct (c !! k) as [v|] eqn:Hc.
  - destruct (new_OptionsConstructor !! k); reflexivity.
  - rewrite (left_id None _). apply defaults_truthy.
Qed.

(** What the merged options hold, as a condition, under a name other than
    "__proto__": the caller's own value if there is one, otherwise what
    the options object inherits; the built-in defaults are falsy. *)
Lemma merge_truthy opts o k :
  merge opts new_OptionsConstructor = Some o ->
  option_truthy o k
  = if String.eqb k "__proto__" then true
    else match opts ≫= (fun c => c !! k) with
         | Some v => truthy v
         | None => inherited_by_options k
         end.
Proof.
  unfold merge. destruct opts as [c|]; cbn [mbind option_bind].
  2:{ intros [= <-]. rewrite defaults_truthy.
      destruct (String.eqb_spec k "__proto__") as [->|_]; reflexivity. }
  rewrite bool_decide_eq_false_2 by (intros [? [=]]).
  destruct (c !! "__proto__"%string) as [v|] eqn:Hp.
  - destruct (object_or_null v); [discriminate|]. intros [= <-].
    rewrite union_defaults_truthy.
    destruct (String.eqb_spec k "__proto__") as [->|Hk].
    + rewrite lookup_delete_eq. reflexivity.
    + rewrite lookup_delete_ne by congruence. reflexivity.
  - intros [= <-]. rewrite union_defaults_truthy.
    destruct (String.eqb_spec k "__proto__") as [->|Hk]; [|reflexivity].
    rewrite Hp. reflexivity.
Qed.

(** X18. The built-in defaults of the options enable no plugin: an item
    is enabled when the caller's options hold a truthy value under its
    name, or hold nothing under a name the options object inherits
    ([merge], [constructor], the names of [Object.prototype]); an item
    named "__proto__" is always enabled.  A host built without options
    therefore activates exactly the registered plugins with an inherited
    name, in sorted order, and nothing at all when there is none. *)
Theorem X18_defaults_enable_nothing
    (construct : PluginCtor -> gmap string Value -> EventEmitter * EventEmitter ->
                 EventEmitter * EventEmitter * Outcome)
    opts o it R :
  let r := new_CoreConstructor construct None R in
  (merge opts new_OptionsConstructor = Some o ->
   enabled o it
   = if String.eqb (name it) "__proto__" then true
     else match opts ≫= (fun c => c !! name it) with
          | Some v => truthy v
          | None => inherited_by_options (name it)
          end) /\
  (fst (fst (snd r)), snd (fst (snd r)))
  = spec_activate construct
      (List.filter (fun it => inherited_by_options (name it))
         (sort compare_items (reg_plugins R)))
      (new_host new_OptionsConstructor) /\
  (Forall (fun it => inherited_by_options (name it) = false) (reg_plugins R) ->
   snd r = (new_host new_OptionsConstructor, Normal, [])).
Proof.
  cbn zeta. split; [|split].
  - intros Hmerge. rewrite enabled_unfold. apply merge_truthy, Hmerge.
  - rewrite (new_CoreConstructor_merged construct None new_OptionsConstructor R eq_refl).
    unfold applyPlugins. cbn [fst snd]. rewrite forEach_instantiate.
    cbn [options new_host]. f_equal. apply filter_ext_In. intros item _.
    rewrite enabled_unfold. apply defaults_truthy.
  - intros Hnone.
    rewrite (new_CoreConstructor_merged construct None new_OptionsConstructor R eq_refl).
    unfold applyPlugins. cbn [snd].
    apply forEach_apply_none_enabled. cbn [options new_host].
    apply List.Forall_forall. intros item Hitem. apply (proj1 (sort_In _ _)) in Hitem.
    rewrite List.Forall_forall in Hnone.
    rewrite enabled_unfold, defaults_truthy. apply Hnone, Hitem.
Qed.

Lemma X18_defaults_enable_nothing_witness :
  let R := fst (use (mkCtor 1 "refresh" None) (mkRegistry [] ∅)) in
  snd (new_CoreConstructor inert None R) = (new_host new_OptionsConstructor, Normal, []).
Proof.
  cbn zeta.
  destruct (X18_defaults_enable_nothing inert None new_OptionsConstructor
              (item_of (mkCtor 1 "refresh" None))
              (fst (use (mkCtor 1 "refresh" None) (mkRegistry [] ∅))))
    as (_ & _ & Hnone).
  apply Hnone. vm_compute. repeat constructor.
Defined.

(** * Properties of the Refresh plugin *)

Lemma on_after_on type fn ctx e : on type fn ctx e = on_after type fn ctx (hasType type e).
Proof. reflexivity. Qed.

Lemma on_after_accepted type fn ctx e :
  accepts type e = true ->
  on_after type fn ctx e
  = (set_events (<[type := subscriptions type e ++ [(fn, ctx)]]> (events e)) e,
     Returns tt).
Proof.
  intros Hacc. unfold on_after. rewrite (accepts_events_at _ _ Hacc).
  unfold subscriptions. destruct (events e !! type); reflexivity.
Qed.

Lemma on_after_refused type fn ctx e :
  accepts type e = false -> on_after type fn ctx e = (e, Throws TypeError).
Proof.
  unfold accepts, on_after. destruct (events_at type e); try discriminate. reflexivity.
Qed.

Lemma hasType_undefined_fields e :
  events (hasType_undefined e) = events e /\
  eventTypes (hasType_undefined e) = eventTypes e.
Proof. unfold hasType_undefined. destruct (eventTypes e !! _); split; reflexivity. Qed.

(** [on(name, fn, ctx)] as a step from [hasType]'s result. *)
Lemma on_name_after name fn ctx e :
  let key := default "undefined"%string name in
  exists e1,
    events e1 = events e /\ eventTypes e1 = eventTypes e /\
    console e1 = match name with
                 | Some type => console (hasType type e)
                 | None => console (hasType_undefined e)
                 end /\
    on_name name fn ctx e = on_after key fn ctx e1.
Proof.
  destruct name as [type|]; cbn [on_name default]; cbn zeta.
  - exists (hasType type e). rewrite hasType_events, hasType_eventTypes.
    repeat split; reflexivity.
  - exists (hasType_undefined e).
    destruct (hasType_undefined_fields e) as [He Ht]. repeat split; assumption.
Qed.

Lemma accepts_events type e e' :
  events e' = events e -> accepts type e' = accepts type e.
Proof. unfold accepts, events_at. intros ->. reflexivity. Qed.

Lemma subscriptions_events type e e' :
  events e' = events e -> subscriptions type e' = subscriptions type e.
Proof. unfold subscriptions. intros ->. reflexivity. Qed.

(** X19. What constructing a Refresh plugin does to the host.  On the
    host's own bus it declares the type "refresh" and nothing else
    changes.  On the hooks bus it subscribes its handler, with the plugin
    as context, to the type found at [eventTypes.contentChanged], and it
    records that subscription in [hooksFn].  When the hooks bus declares
    no such type the lookup gives [undefined]: the handler is then stored
    under the key "undefined", and no diagnostic is reported unless a type
    named "undefined" is declared.  The hooks bus can hold subscriptions
    for the key in both cases; on a bus that cannot, the construction
    throws and subscribes nothing. *)
Theorem X19_Refresh_construction self handler core hooks t :
  let r := new_Refresh self handler (core, hooks) in
  let core' := fst (fst r) in
  let hooks' := snd (fst r) in
  let name := eventTypes hooks !! "contentChanged"%string in
  let key := default "undefined"%string name in
  isType t core' = bool_decide (t = "refresh"%string) || isType t core /\
  events core' = events core /\
  console core' = console core /\
  (accepts key hooks = true ->
   subscriptions key hooks' = subscriptions key hooks ++ [(handler, CtxObj self)] /\
   snd r = Returns (mkRefresh [(name, handler)])) /\
  (t <> key -> events hooks' !! t = events hooks !! t) /\
  eventTypes hooks' = eventTypes hooks /\
  (name = Some "contentChanged"%string ->
   accepts key hooks = true /\ console hooks' = console hooks) /\
  (name = None ->
   accepts key hooks = true /\
   (eventTypes hooks !! "undefined"%string = None -> console hooks' = console hooks)) /\
  (accepts key hooks = false ->
   snd r = Throws TypeError /\ events hooks' = events hooks).
Proof.
  cbn zeta. unfold new_Refresh, handleHooks, registerHooks, handleCore. cbn [fst snd].
  destruct (registerType_fields [REFRESH_HOOKS_NAME] core) as (He & _ & Hc).
  destruct (on_name_after (eventTypes hooks !! "contentChanged"%string) handler
              (CtxObj self) hooks) as (e1 & He1 & Ht1 & Hc1 & Hon).
  cbn zeta in Hon. rewrite Hon. clear Hon.
  set (name := eventTypes hooks !! "contentChanged"%string) in *.
  set (key := default "undefined"%string name) in *.
  assert (Hstep :
    on_after key handler (CtxObj self) e1
    = if accepts key hooks
      then (set_events (<[key := subscriptions key hooks ++ [(handler, CtxObj self)]]>
                          (events e1)) e1, Returns tt)
      else (e1, Throws TypeError)).
  { destruct (accepts key hooks) eqn:Hacc.
    - rewrite on_after_accepted by (rewrite (accepts_events _ _ _ He1); exact Hacc).
      rewrite (subscriptions_events _ _ _ He1). reflexivity.
    - apply on_after_refused. rewrite (accepts_events _ _ _ He1). exact Hacc. }
  rewrite Hstep. clear Hstep.
  assert (Hty : isType t (registerType [REFRESH_HOOKS_NAME] core)
                = bool_decide (t = "refresh"%string) || isType t core).
  { rewrite registerType_isType.
    apply (f_equal (fun b : bool => b || isType t core)).
    unfold REFRESH_HOOKS_NAME.
    rewrite (bool_decide_ext _ _ (list_elem_of_singleton t "refresh"%string)).
    destruct (bool_decide_reflect (t = "refresh"%string)) as [->|_]; reflexivity. }
  assert (Hord : name = Some "contentChanged"%string \/ name = None ->
                 accepts key hooks = true).
  { intros [Hname|Hname]; apply accepts_ordinary; unfold key; rewrite Hname;
      reflexivity. }
  assert (Hquiet1 : name = Some "contentChanged"%string -> console e1 = console hooks).
  { intros Hname. rewrite Hc1, Hname. rewrite hasType_declared; [reflexivity|].
    rewrite isType_lookup. apply bool_decide_eq_true_2. exact Hname. }
  assert (Hquiet2 : name = None -> eventTypes hooks !! "undefined"%string = None ->
                    console e1 = console hooks).
  { intros Hname Hundef. rewrite Hc1, Hname. unfold hasType_undefined.
    rewrite Hundef. reflexivity. }
  destruct (accepts key hooks) eqn:Hacc;
    cbn [fst snd hooksFn app events eventTypes console set_events].
  - split; [exact Hty|]. split; [exact He|]. split; [exact Hc|].
    split; [intros _; split; [|reflexivity]|].
    { unfold subscriptions at 1. cbn [events set_events].
      rewrite lookup_insert_eq. reflexivity. }
    split; [intros Hne; rewrite lookup_insert_ne by congruence; rewrite He1; reflexivity|].
    split; [exact Ht1|].
    split; [intros Hname; split; [reflexivity | apply Hquiet1, Hname]|].
    split; [intros Hname; split; [reflexivity | apply Hquiet2, Hname]|].
    discriminate.
  - split; [exact Hty|]. split; [exact He|]. split; [exact Hc|].
    split; [discriminate|].
    split; [intros _; rewrite He1; reflexivity|].
    split; [exact Ht1|].
    split; [intros Hname; discriminate (Hord (or_introl Hname))|].
    split; [intros Hname; discriminate (Hord (or_intror Hname))|].
    intros _. split; [reflexivity | exact He1].
Qed.





(** * A pass and the subscriptions it runs over *)

Section PassFacts.

Variable body : nat -> Ctx -> list Value -> EventEmitter -> EventEmitter * Ending Value.

Lemma apply_calls f c args e :
  Forall (fun g => In g (tail (chain f))) (map call_fn (snd (apply body f c args e))).
Proof.
  revert c args e. induction f as [id p|uid type fn IH ctx]; intros c args e.
  - rewrite apply_User. constructor.
  - rewrite apply_Magic. destruct (off _ _ e) as [e1 [o|err|]]; cbn [snd map];
      try constructor.
    + cbn [call_fn chain tail]. destruct fn; left; reflexivity.
    + cbn [chain tail]. eapply Forall_impl; [apply IH|].
      intros g Hg. destruct fn; cbn [chain tail] in *; right; exact Hg.
Qed.

(** Every function applied during the loop belongs to one of the
    subscriptions of the copied array. *)
Lemma dispatch_calls (evs : list Sub) args e :
  Forall (fun g => exists s, In s evs /\ In g (chain (fst s)))
         (map call_fn (calls (snd (dispatch body evs args e)))).
Proof.
  revert e. induction evs as [|[f c] evs IH]; intros e; [constructor|].
  rewrite dispatch_cons. cbn zeta.
  assert (Hstep : Forall (fun g => exists s, In s ((f, c) :: evs) /\ In g (chain (fst s)))
                    (map call_fn
                       (applied (mkFired (f, c) args (snd (fst (apply body f c args e)))
                                         (snd (apply body f c args e)))))).
  { unfold applied. cbn [map call_fn fired_sub fired_inner fst].
    constructor.
    - exists (f, c). split; [left; reflexivity|]. destruct f; left; reflexivity.
    - eapply Forall_impl; [apply apply_calls|]. intros g Hg.
      exists (f, c). split; [left; reflexivity|].
      destruct f; cbn [chain tail fst] in *; [contradiction | right; exact Hg]. }
  assert (Hrest : forall e', Forall (fun g => exists s, In s ((f, c) :: evs)
                                               /\ In g (chain (fst s)))
                    (map call_fn (calls (snd (dispatch body evs args e'))))).
  { intros e'. eapply Forall_impl; [apply IH|]. intros g (s & Hs & Hg).
    exists s. split; [right; exact Hs | exact Hg]. }
  destruct (snd (fst (apply body f c args e))) as [ret|err|].
  - destruct (is_true ret); cbn [fst snd]; unfold calls; cbn [flat_map].
    + rewrite app_nil_r. exact Hstep.
    + rewrite map_app. apply Forall_app. split; [exact Hstep | apply Hrest].
  - cbn [fst snd]. unfold calls. cbn [flat_map]. rewrite app_nil_r. exact Hstep.
  - cbn [fst snd]. unfold calls. cbn [flat_map]. rewrite app_nil_r. exact Hstep.
Qed.

Lemma trigger_calls type args e :
  Forall (fun g => exists s, In s (subscriptions type e) /\ In g (chain (fst s)))
         (map call_fn (calls (snd (trigger body type args e)))).
Proof.
  rewrite trigger_unfold. unfold subscriptions, events_at.
  destruct (events e !! type) as [evs|]; [apply dispatch_calls|].
  destruct (Object_prototype type); constructor.
Qed.

Lemma trigger_steps type args e :
  exists rest,
    subscriptions type e = map fired_sub (snd (trigger body type args e)) ++ rest /\
    Forall (fun s => fired_args s = args) (snd (trigger body type args e)) /\
    (accepts type e = true ->
     snd (fst (trigger body type args e)) = Returns VUndefined -> rest = []).
Proof.
  rewrite trigger_unfold. unfold subscriptions, accepts, events_at.
  destruct (events e !! type) as [evs|].
  - destruct (dispatch_steps body evs args (hasType type e)) as (rest & H1 & H2 & H3).
    exists rest. cbn [default]. auto.
  - destruct (Object_prototype type); exists []; cbn [default snd map app];
      (split; [reflexivity|]); (split; [constructor|]); auto.
Qed.

Lemma trigger_run_pass type args e :
  accepts type e = true ->
  Forall (fun s => plain s = true) (subscriptions type e) ->
  (fst (fst (trigger body type args e)), snd (fst (trigger body type args e)))
  = spec_pass body args (subscriptions type e) (hasType type e).
Proof.
  intros Hacc Hplain. rewrite (trigger_accepted _ _ _ _ Hacc).
  apply dispatch_run_pass, Hplain.
Qed.

Lemma invocations_none h (cs : list Call) :
  Forall (fun g => fn_same g h = false) (map call_fn cs) -> invocations h cs = 0.
Proof.
  unfold invocations. induction 1 as [|g l Hg _ IH]; [reflexivity|].
  rewrite filter_cons, decide_False by (rewrite Hg; discriminate). exact IH.
Qed.

End PassFacts.

Lemma chain_plain_no_match id p (s : Sub) :
  plain s = true ->
  off_matches (User id p) s = false ->
  Forall (fun g => fn_same g (User id p) = false) (chain (fst s)).
Proof.
  destruct s as [f c]. unfold plain. cbn [fst]. intros Hp Hm.
  apply off_matches_false in Hm as [Hsame Hfn]. cbn [fst] in Hsame, Hfn.
  destruct f as [a q|uid type [b q|? ? ? ?] ctx]; try discriminate Hp; cbn [chain].
  - constructor; [exact Hsame | constructor].
  - constructor; [exact Hsame|]. constructor; [|constructor].
    apply (Hfn (UserFn b)). reflexivity.
Qed.

(** X22. A pass of [trigger] on a bus that can hold subscriptions for the
    type, whose subscriptions were made by [on] or [once] with functions of
    the caller: it is the pass over the list stored when [trigger] was
    called.  The subscriptions of that list are invoked in order, each with
    its stored context and the arguments of [trigger], on the bus the
    previous one left, whatever the handlers did to the stored list
    meanwhile; the pass ends with [true] at the first result that is
    exactly [true], with the error at the first one that throws, and
    with no value after the last subscription.  The steps taken are an
    initial segment of the list, the whole list when no value is
    returned. *)
Theorem X22_trigger_runs_snapshot
    (body : nat -> Ctx -> list Value -> EventEmitter -> EventEmitter * Ending Value)
    type args e :
  accepts type e = true ->
  Forall (fun s => plain s = true) (subscriptions type e) ->
  let r := trigger body type args e in
  (fst (fst r), snd (fst r)) = spec_pass body args (subscriptions type e) (hasType type e) /\
  (exists rest,
     subscriptions type e = map fired_sub (snd r) ++ rest /\
     (snd (fst r) = Returns VUndefined -> rest = [])) /\
  Forall (fun s => fired_args s = args) (snd r).
Proof.
  intros Hacc Hplain. cbn zeta.
  split; [apply trigger_run_pass; assumption|].
  destruct (trigger_steps body type args e) as (rest & Hsteps & Hargs & Hend).
  split; [|exact Hargs]. exists rest. split; [exact Hsteps | exact (Hend Hacc)].
Qed.

(** Handler 0 unsubscribes handler 1 and subscribes handler 2 during the
    pass: handler 1 is still applied, handler 2 is not. *)
Lemma X22_trigger_runs_snapshot_witness :
  let e := fst (subscribe_all "tap" [(User 0 None, CtxThis); (User 1 None, CtxThis)]
                  (new_EventEmitter ["tap"%string])) in
  let r := trigger meddler "tap" [] e in
  snd (fst r) = Returns VUndefined /\
  subscriptions "tap" (fst (fst r)) = [(User 0 None, CtxThis); (User 2 None, CtxThis)] /\
  map fired_sub (snd r) = [(User 0 None, CtxThis); (User 1 None, CtxThis)].
Proof.
  cbn zeta.
  destruct (X22_trigger_runs_snapshot meddler "tap" []
              (fst (subscribe_all "tap" [(User 0 None, CtxThis); (User 1 None, CtxThis)]
                      (new_EventEmitter ["tap"%string]))))
    as (Hpass & (rest & Hsteps & Hend) & _).
  - reflexivity.
  - vm_compute. repeat constructor.
  - assert (Hret : snd (fst (trigger meddler "tap" []
                     (fst (subscribe_all "tap"
                             [(User 0 None, CtxThis); (User 1 None, CtxThis)]
                             (new_EventEmitter ["tap"%string])))))
                   = Returns VUndefined).
    { apply (f_equal snd) in Hpass. cbn [snd] in Hpass. rewrite Hpass.
      vm_compute. reflexivity. }
    split; [exact Hret|]. split.
    + apply (f_equal fst) in Hpass. cbn [fst] in Hpass. rewrite Hpass.
      vm_compute. reflexivity.
    + rewrite (Hend Hret), app_nil_r in Hsteps. symmetry. exact Hsteps.
Defined.

(** X23. Any sequence of [on(type, h_i, c_i)] with functions of the
    caller, on a bus that can hold subscriptions for the type, followed by
    one [trigger(type, ...args)]: every call of [on] returns and appends
    its pair, so that the handlers are stored in registration order after
    the earlier subscriptions; the pass invokes them in that order, each
    with its context and the arguments, ends with [true] at the first
    handler that returns exactly [true], with the error at the first one
    that throws, and returns no value after the last one. *)
Theorem X23_on_then_trigger
    (body : nat -> Ctx -> list Value -> EventEmitter -> EventEmitter * Ending Value)
    type (hs : list Sub) args e :
  accepts type e = true ->
  Forall (fun s => plain s = true) (subscriptions type e ++ hs) ->
  let r0 := subscribe_all type hs e in
  let r := trigger body type args (fst r0) in
  snd r0 = Returns tt /\
  subscriptions type (fst r0) = subscriptions type e ++ hs /\
  (fst (fst r), snd (fst r))
  = spec_pass body args (subscriptions type e ++ hs) (hasType type (fst r0)) /\
  (exists rest,
     subscriptions type e ++ hs = map fired_sub (snd r) ++ rest /\
     (snd (fst r) = Returns VUndefined -> rest = [])) /\
  Forall (fun s => fired_args s = args) (snd r).
Proof.
  intros Hacc Hplain. cbn zeta.
  destruct (subscribe_all_accepted type hs e Hacc) as (Hret & Hacc' & Hsubs).
  split; [exact Hret|]. split; [exact Hsubs|].
  rewrite <- Hsubs in Hplain |- *.
  split; [apply trigger_run_pass; assumption|].
  destruct (trigger_steps body type args (fst (subscribe_all type hs e)))
    as (rest & Hsteps & Hargs & Hend).
  split; [|exact Hargs]. exists rest. split; [exact Hsteps | exact (Hend Hacc')].
Qed.

(** Three handlers of which the second returns [true]. *)
Lemma X23_on_then_trigger_witness :
  let stop : nat -> Ctx -> list Value -> EventEmitter -> EventEmitter * Ending Value :=
    fun id _ _ e => (e, Returns (VBool (Nat.eqb id 1))) in
  let hs := [(User 0 None, CtxThis); (User 1 None, CtxObj 4); (User 2 None, CtxThis)] in
  let r := trigger stop "tap" [VNum 5]
             (fst (subscribe_all "tap" hs (new_EventEmitter ["tap"%string]))) in
  snd (fst r) = Returns (VBool true).
Proof.
  cbn zeta.
  destruct (X23_on_then_trigger
              (fun id _ _ e => (e, Returns (VBool (Nat.eqb id 1)))) "tap"
              [(User 0 None, CtxThis); (User 1 None, CtxObj 4); (User 2 None, CtxThis)]
              [VNum 5] (new_EventEmitter ["tap"%string]))
    as (_ & _ & Hpass & _).
  - reflexivity.
  - vm_compute. repeat constructor.
  - apply (f_equal snd) in Hpass. cbn [snd] in Hpass. rewrite Hpass.
    vm_compute. reflexivity.
Defined.

(** X24. After [off(type, h)] with a non-empty type, the subscriptions of
    the type are the earlier ones without those whose stored function is
    [h] or holds [h] in its property [fn] (the adapter of [once(type, h)]
    among them), in their order.  A following [trigger(type)] takes no
    step for such a subscription, and when the subscriptions were made by
    [on] or [once] with functions of the caller it does not apply [h] at
    all: on a bus that can hold subscriptions for the type the pass is the
    pass over the remaining list. *)
Theorem X24_off_then_trigger
    (body : nat -> Ctx -> list Value -> EventEmitter -> EventEmitter * Ending Value)
    type id p args e :
  type <> EmptyString ->
  Forall (fun s => plain s = true) (subscriptions type e) ->
  let h := User id p in
  let e1 := fst (off (Some type) (Some h) e) in
  let r := trigger body type args e1 in
  subscriptions type e1 = kept h (subscriptions type e) /\
  Forall (fun s => off_matches h s = false) (subscriptions type e1) /\
  Forall (fun s => off_matches h (fired_sub s) = false) (snd r) /\
  invocations h (calls (snd r)) = 0 /\
  (accepts type e = true ->
   snd (off (Some type) (Some h) e) = Returns ReturnsThis /\
   (fst (fst r), snd (fst r))
   = spec_pass body args (kept h (subscriptions type e)) (hasType type e1)).
Proof.
  intros Hne Hplain. cbn zeta.
  pose proof (off_handler_subscriptions type (User id p) e Hne) as Hsubs.
  assert (Hplain1 : Forall (fun s => plain s = true)
                      (kept (User id p) (subscriptions type e))).
  { apply List.Forall_forall. intros s Hs. apply kept_In in Hs as [Hs _].
    rewrite List.Forall_forall in Hplain. apply Hplain, Hs. }
  split; [exact Hsubs|].
  split; [rewrite Hsubs; apply kept_no_match|].
  split; [|split].
  - destruct (trigger_steps body type args (fst (off (Some type) (Some (User id p)) e)))
      as (rest & Hsteps & _ & _).
    apply List.Forall_forall. intros s Hs.
    assert (Hin : In (fired_sub s) (kept (User id p) (subscriptions type e))).
    { rewrite <- Hsubs, Hsteps. apply in_or_app. left. apply in_map, Hs. }
    apply kept_In in Hin. tauto.
  - apply invocations_none.
    eapply Forall_impl; [apply trigger_calls|].
    intros g (s & Hs & Hg). cbn beta. rewrite Hsubs in Hs.
    apply kept_In in Hs as [Hs Hm].
    pose proof (chain_plain_no_match id p s) as Hchain.
    rewrite List.Forall_forall in Hplain, Hchain.
    apply Hchain; [apply Hplain, Hs | exact Hm | exact Hg].
  - intros Hacc. rewrite (off_handler_accepted _ _ _ Hne Hacc). cbn [fst snd].
    split; [reflexivity|].
    pose proof (off_handler_accepted type (User id p) e Hne Hacc) as Hoff.
    apply (f_equal fst) in Hoff. cbn [fst] in Hoff. rewrite <- Hoff, <- Hsubs.
    apply trigger_run_pass.
    + rewrite Hoff. unfold accepts, events_at in *.
      destruct (events e !! type) as [evs|] eqn:Hev.
      * cbn [events set_events]. rewrite lookup_insert_eq. reflexivity.
      * rewrite hasType_events, Hev. exact Hacc.
    + rewrite Hsubs. exact Hplain1.
Qed.

Lemma X24_off_then_trigger_witness :
  let e := fst (once "tap" (User 1 None) CtxThis
                  (fst (on "tap" (User 1 None) CtxThis
                          (fst (on "tap" (User 0 None) CtxThis
                                  (new_EventEmitter ["tap"%string])))))) in
  let e1 := fst (off (Some "tap"%string) (Some (User 1 None)) e) in
  subscriptions "tap" e1 = [(User 0 None, CtxThis)] /\
  invocations (User 1 None) (calls (snd (trigger answer "tap" [] e1))) = 0.
Proof.
  cbn zeta.
  destruct (X24_off_then_trigger answer "tap" 1 None []
              (fst (once "tap" (User 1 None) CtxThis
                      (fst (on "tap" (User 1 None) CtxThis
                              (fst (on "tap" (User 0 None) CtxThis
                                      (new_EventEmitter ["tap"%string]))))))))
    as (Hsubs & _ & _ & Hinv & _).
  - discriminate.
  - vm_compute. repeat constructor.
  - split; [rewrite Hsubs; vm_compute; reflexivity | exact Hinv].
Defined.

(** * Single-shot subscriptions among others *)

Lemma invocations_app h (cs cs' : list Call) :
  invocations h (cs ++ cs') = invocations h cs + invocations h cs'.
Proof. unfold invocations. rewrite map_app, filter_app, length_app. reflexivity. Qed.

Lemma calls_app (s1 s2 : list Fired) : calls (s1 ++ s2) = calls s1 ++ calls s2.
Proof. unfold calls. apply flat_map_app. Qed.

Lemma calls_no_inner (steps : list Fired) :
  Forall (fun s => fired_inner s = []) steps ->
  map call_fn (calls steps) = map fst (map fired_sub steps).
Proof.
  induction 1 as [|s steps Hs _ IH]; [reflexivity|].
  unfold calls in *. cbn [flat_map map]. unfold applied at 1. rewrite Hs.
  cbn [app map call_fn]. f_equal. exact IH.
Qed.

Lemma kept_bare uid type fn ctx (old : list Sub) :
  Forall (fun s => bare s = true) old -> kept (Magic uid type fn ctx) old = old.
Proof.
  intros Hbare. apply kept_all. eapply Forall_impl; [exact Hbare|].
  intros [f c]. unfold bare, off_matches. cbn [fst].
  destruct f as [i [q|]|]; try discriminate. reflexivity.
Qed.

Lemma bare_is_user (s : Sub) : bare s = true -> is_user s = true.
Proof. destruct s as [[i [q|]|] c]; cbn; congruence. Qed.

Lemma bare_plain (s : Sub) : bare s = true -> plain s = true.
Proof. destruct s as [[i [q|]|] c]; cbn; congruence. Qed.

Section OnceFacts.

Variable body : nat -> Ctx -> list Value -> EventEmitter -> EventEmitter * Ending Value.

(** The loop over subscriptions whose handlers leave the bus alone and
    return a value other than [true] goes on to what follows them. *)
Lemma dispatch_quiet_prefix (old rest : list Sub) args e :
  Forall (fun s => is_user s = true) old ->
  (forall i q c, In (User i q, c) old ->
     forall a e0, exists v, body i c a e0 = (e0, Returns v) /\ is_true v = false) ->
  exists steps,
    dispatch body (old ++ rest) args e
    = (fst (fst (dispatch body rest args e)), snd (fst (dispatch body rest args e)),
       steps ++ snd (dispatch body rest args e)) /\
    map fired_sub steps = old /\
    Forall (fun s => fired_inner s = []) steps.
Proof.
  induction old as [|[f c] old IH]; intros Huser Hquiet.
  - exists []. cbn [app map]. split; [|split; [reflexivity|constructor]].
    destruct (dispatch body rest args e) as [[e' r] steps]. reflexivity.
  - apply Forall_cons in Huser as [Hf Huser].
    destruct f as [i q|]; [|discriminate Hf].
    destruct (Hquiet i q c (or_introl eq_refl) args e) as (v & Hbody & Hv).
    destruct IH as (steps & Hd & Hsubs & Hinner); [exact Huser | |].
    { intros i' q' c' Hin. apply (Hquiet i' q' c'). right. exact Hin. }
    exists (mkFired (User i q, c) args (Returns v) [] :: steps).
    cbn [app]. rewrite dispatch_cons. cbn zeta. rewrite apply_User, Hbody.
    cbn [fst snd]. rewrite Hv, Hd. cbn [fst snd map fired_sub].
    split; [reflexivity|]. split; [f_equal; exact Hsubs|].
    constructor; [reflexivity | exact Hinner].
Qed.

(** The loop over one adapter of [once] around a function of the caller,
    on a bus where the adapter's [off] returns. *)
Lemma dispatch_adapter uid type id p ctx c args e :
  snd (off (Some type) (Some (Magic uid type (User id p) ctx)) e) = Returns ReturnsThis ->
  dispatch body [(Magic uid type (User id p) ctx, c)] args e
  = (fst (body id ctx args (fst (off (Some type) (Some (Magic uid type (User id p) ctx)) e))),
     only_true
       (snd (body id ctx args
               (fst (off (Some type) (Some (Magic uid type (User id p) ctx)) e)))),
     [mkFired (Magic uid type (User id p) ctx, c) args
        (only_true
           (snd (body id ctx args
                   (fst (off (Some type) (Some (Magic uid type (User id p) ctx)) e)))))
        [mkCall (User id p) ctx args
           (snd (body id ctx args
                   (fst (off (Some type) (Some (Magic uid type (User id p) ctx)) e))))]]).
Proof.
  intros Hoff. rewrite dispatch_cons. cbn zeta. rewrite apply_Magic.
  destruct (off (Some type) (Some (Magic uid type (User id p) ctx)) e) as [e2 o].
  cbn [fst snd] in *. subst o. cbn zeta. rewrite apply_User. cbn [fst snd].
  destruct (snd (body id ctx args e2)) as [v|err|]; cbn [only_true]; try reflexivity.
  destruct (is_true v) eqn:Hv.
  - apply is_true_eq in Hv. subst v. reflexivity.
  - reflexivity.
Qed.

End OnceFacts.

(** X25. [once(type, h, ctx)] among other subscribers.  On a bus that can
    hold subscriptions for the non-empty [type], whose subscribers so far
    are functions of the caller other than [h] that leave the bus alone
    and do not return [true], and for a handler [h] that leaves the
    subscriptions of [type] alone: [once] returns; the first
    [trigger(type)] applies [h] exactly once, to [ctx] and the arguments of
    that call, after the adapter has been removed; it ends as [h] does,
    with [true] handed on and any other value dropped; the adapter is gone
    afterwards and the other subscriptions are as before; the second
    [trigger(type)] does not apply [h]. *)
Theorem X25_once_fires_once
    (body : nat -> Ctx -> list Value -> EventEmitter -> EventEmitter * Ending Value)
    type id p ctx args1 args2 e :
  type <> EmptyString ->
  accepts type e = true ->
  Forall (fun s => bare s = true /\ fn_same (fst s) (User id p) = false)
         (subscriptions type e) ->
  (forall i q c, In (User i q, c) (subscriptions type e) ->
     forall a e0, exists v, body i c a e0 = (e0, Returns v) /\ is_true v = false) ->
  (forall c a e0, events (fst (body id c a e0)) !! type = events e0 !! type) ->
  let h := User id p in
  let m := Magic (closures e) type h ctx in
  let e1 := fst (once type h ctx e) in
  let r1 := trigger body type args1 e1 in
  let r2 := trigger body type args2 (fst (fst r1)) in
  let e2 := fst (off (Some type) (Some m) (hasType type e1)) in
  snd (once type h ctx e) = Returns tt /\
  subscriptions type e1 = subscriptions type e ++ [(m, CtxThis)] /\
  subscriptions type e2 = subscriptions type e /\
  fst (fst r1) = fst (body id ctx args1 e2) /\
  snd (fst r1) = only_true (snd (body id ctx args1 e2)) /\
  In (mkCall h ctx args1 (snd (body id ctx args1 e2))) (calls (snd r1)) /\
  invocations h (calls (snd r1)) = 1 /\
  subscriptions type (fst (fst r1)) = subscriptions type e /\
  invocations h (calls (snd r2)) = 0.
Proof.
  intros Hne Hacc Hold Hquiet Hbody. cbn zeta.
  set (h := User id p). set (m := Magic (closures e) type h ctx).
  set (old := subscriptions type e) in *.
  assert (Hbare : Forall (fun s => bare s = true) old).
  { eapply Forall_impl; [exact Hold|]. intros s [Hs _]. exact Hs. }
  assert (Hother : Forall (fun g => fn_same g h = false) (map fst old)).
  { apply Forall_map. eapply Forall_impl; [exact Hold|]. intros s [_ Hs]. exact Hs. }
  destruct (once_accepted type h ctx e Hacc) as (Hret & Hev1 & _ & _).
  fold old in Hev1. fold m in Hev1.
  set (e1 := fst (once type h ctx e)) in *.
  assert (Hsubs1 : subscriptions type e1 = old ++ [(m, CtxThis)]).
  { unfold subscriptions. rewrite Hev1. reflexivity. }
  assert (Hacc1 : accepts type (hasType type e1) = true).
  { apply accepts_own. rewrite hasType_events, Hev1. eauto. }
  pose proof (off_handler_accepted type m (hasType type e1) Hne Hacc1) as Hoff.
  rewrite hasType_events, Hev1 in Hoff.
  pose proof (kept_bare (closures e) type h ctx old Hbare) as Hkept. fold m in Hkept.
  rewrite kept_app, Hkept, kept_self, app_nil_r in Hoff.
  set (e2 := fst (off (Some type) (Some m) (hasType type e1))) in *.
  assert (Hev2 : events e2 !! type = Some old).
  { unfold e2. rewrite Hoff. cbn [fst events set_events]. apply lookup_insert_eq. }
  pose proof (Hbody ctx args1 e2) as Hev3. rewrite Hev2 in Hev3.
  assert (Hlast : dispatch body [(m, CtxThis)] args1 (hasType type e1)
                  = (fst (body id ctx args1 e2), only_true (snd (body id ctx args1 e2)),
                     [mkFired (m, CtxThis) args1 (only_true (snd (body id ctx args1 e2)))
                        [mkCall h ctx args1 (snd (body id ctx args1 e2))]])).
  { apply dispatch_adapter. fold h. fold m. rewrite Hoff. reflexivity. }
  destruct (dispatch_quiet_prefix body old [(m, CtxThis)] args1 (hasType type e1))
    as (steps & Hd & Hfired & Hinner).
  { eapply Forall_impl; [exact Hbare|]. apply bare_is_user. }
  { exact Hquiet. }
  assert (Hr1 : trigger body type args1 e1
                = (fst (body id ctx args1 e2), only_true (snd (body id ctx args1 e2)),
                   steps ++ [mkFired (m, CtxThis) args1
                               (only_true (snd (body id ctx args1 e2)))
                               [mkCall h ctx args1 (snd (body id ctx args1 e2))]])).
  { rewrite trigger_unfold, (events_at_own _ _ _ Hev1), Hd, Hlast. reflexivity. }
  rewrite Hr1. cbn [fst snd].
  assert (Hsteps0 : invocations h (calls steps) = 0).
  { apply invocations_none. rewrite (calls_no_inner _ Hinner), Hfired. exact Hother. }
  split; [exact Hret|]. split; [exact Hsubs1|].
  split; [unfold subscriptions; rewrite Hev2; reflexivity|].
  split; [reflexivity|]. split; [reflexivity|].
  split; [|split; [|split]].
  - rewrite calls_app. apply in_or_app. right. right. left. reflexivity.
  - rewrite calls_app, invocations_app, Hsteps0.
    unfold invocations, calls, applied.
    cbn [flat_map fired_sub fired_args fired_ret fired_inner fst snd app map call_fn].
    rewrite !filter_cons, filter_nil.
    rewrite decide_False by (cbn; discriminate).
    rewrite decide_True by (cbn; apply Nat.eqb_refl). reflexivity.
  - unfold subscriptions. rewrite Hev3. reflexivity.
  - apply invocations_none.
    eapply Forall_impl; [apply trigger_calls|].
    intros g (s & Hs & Hg). cbn beta. unfold subscriptions in Hs. rewrite Hev3 in Hs.
    cbn [default] in Hs. rewrite List.Forall_forall in Hold.
    destruct (Hold s Hs) as [Hb Hsame].
    destruct s as [[i [q|]|] c]; try discriminate Hb. cbn [fst chain] in Hg, Hsame.
    destruct Hg as [<-|[]]. exact Hsame.
Qed.

(** Handler 1 subscribed by [once] after handler 0, which stays. *)
Lemma X25_once_fires_once_witness :
  let e := fst (on "tap" (User 0 None) CtxThis (new_EventEmitter ["tap"%string])) in
  let e1 := fst (once "tap" (User 1 None) (CtxObj 3) e) in
  let r1 := trigger answer "tap" [VNum 7] e1 in
  let r2 := trigger answer "tap" [] (fst (fst r1)) in
  invocations (User 1 None) (calls (snd r1)) = 1 /\
  invocations (User 1 None) (calls (snd r2)) = 0 /\
  subscriptions "tap" (fst (fst r1)) = [(User 0 None, CtxThis)].
Proof.
  cbn zeta.
  destruct (X25_once_fires_once answer "tap" 1 None (CtxObj 3) [VNum 7] []
              (fst (on "tap" (User 0 None) CtxThis (new_EventEmitter ["tap"%string]))))
    as (_ & _ & _ & _ & _ & _ & Hfirst & Hsubs & Hsecond).
  - discriminate.
  - reflexivity.
  - vm_compute. repeat constructor.
  - intros i q c _ a e0. exists (VNum 42). split; reflexivity.
  - intros c a e0. reflexivity.
  - split; [exact Hfirst|]. split; [exact Hsecond|].
    rewrite Hsubs. vm_compute. reflexivity.
Defined.

(** * Undeclared event types *)

Lemma off_type_only_accepted type e :
  type <> EmptyString -> accepts type e = true ->
  off (Some type) None e
  = (set_events (<[type := []]> (events e)) (hasType type e), Returns ReturnsThis).
Proof.
  intros Hne Hacc. destruct (String.eqb_spec type "__proto__") as [Hp|Hp].
  - unfold off. rewrite (truthy_str_Some _ Hne). cbn [negb andb]. cbn zeta.
    rewrite hasType_events.
    assert (Hown : is_Some (events e !! type)).
    { unfold accepts, events_at in Hacc. destruct (events e !! type); [eauto|].
      subst type. discriminate Hacc. }
    rewrite (bool_decide_eq_true_2 _ Hown), andb_false_r. reflexivity.
  - apply off_type_only; assumption.
Qed.

(** X26. An undeclared type on a bus that can hold subscriptions for it:
    every operation reports the type and goes on as with a declared one.
    [on] and [once] return and store the subscription ([once] reports
    twice, once itself and once through [on]); [trigger] runs the loop over
    the subscriptions stored for the type; [off], when the type is not the
    empty string, clears or filters the subscriptions of the type and
    returns the emitter. *)
Theorem X26_undeclared_type_tolerated
    (body : nat -> Ctx -> list Value -> EventEmitter -> EventEmitter * Ending Value)
    type fn ctx args ofn e :
  isType type e = false ->
  accepts type e = true ->
  let d := UnknownEventType type (dom (eventTypes e)) in
  (snd (on type fn ctx e) = Returns tt /\
   console (fst (on type fn ctx e)) = console e ++ [d] /\
   subscriptions type (fst (on type fn ctx e)) = subscriptions type e ++ [(fn, ctx)]) /\
  (snd (once type fn ctx e) = Returns tt /\
   console (fst (once type fn ctx e)) = console e ++ [d; d] /\
   subscriptions type (fst (once type fn ctx e))
   = subscriptions type e ++ [(Magic (closures e) type fn ctx, CtxThis)]) /\
  trigger body type args e = dispatch body (subscriptions type e) args (warn d e) /\
  (type <> EmptyString ->
   console (fst (off (Some type) ofn e)) = console e ++ [d] /\
   snd (off (Some type) ofn e) = Returns ReturnsThis /\
   subscriptions type (fst (off (Some type) ofn e))
   = match ofn with
     | None => []
     | Some f => kept f (subscriptions type e)
     end).
Proof.
  intros Hundecl Hacc. cbn zeta.
  pose proof (hasType_undeclared type e Hundecl) as Hwarn.
  split; [|split; [|split]].
  - split; [rewrite on_accepted by exact Hacc; reflexivity|].
    split; [rewrite on_console, Hwarn; reflexivity|].
    apply on_subscriptions, Hacc.
  - split; [apply once_accepted, Hacc|]. split; [|apply once_subscriptions, Hacc].
    rewrite once_console, Hwarn.
    unfold hasType, isType. cbn [eventTypes warn]. fold (isType type e).
    rewrite Hundecl. cbn [console warn]. rewrite <- app_assoc. reflexivity.
  - rewrite (trigger_accepted _ _ _ _ Hacc), Hwarn. reflexivity.
  - intros Hne. destruct ofn as [f|].
    + rewrite off_handler_console, Hwarn by assumption.
      split; [reflexivity|].
      split; [rewrite off_handler_accepted by assumption; reflexivity|].
      apply off_handler_subscriptions. assumption.
    + rewrite off_type_only_accepted, Hwarn by assumption. cbn [fst snd].
      split; [reflexivity|]. split; [reflexivity|].
      unfold subscriptions. cbn [events set_events].
      rewrite lookup_insert_eq. reflexivity.
Qed.

Lemma X26_undeclared_type_tolerated_witness :
  let e := new_EventEmitter ["tap"%string] in
  let d := UnknownEventType "drag" {["tap"%string]} in
  console (fst (on "drag" (User 0 None) CtxThis e)) = [d] /\
  subscriptions "drag" (fst (on "drag" (User 0 None) CtxThis e))
  = [(User 0 None, CtxThis)] /\
  console (fst (off (Some "drag"%string) (Some (User 0 None)) e)) = [d].
Proof.
  cbn zeta.
  destruct (X26_undeclared_type_tolerated idle "drag" (User 0 None) CtxThis []
              (Some (User 0 None)) (new_EventEmitter ["tap"%string]))
    as ((_ & Hc & Hs) & _ & _ & Hoff); [vm_compute; reflexivity | reflexivity |].
  destruct Hoff as (Hoc & _ & _); [discriminate|].
  rewrite Hc, Hs, Hoc. vm_compute. repeat split; reflexivity.
Defined.
